(** * DomPDF: field extraction from "Constancia de Situación Fiscal" texts

    A shallow embedding of [src/DomPDF.py]: the string methods it calls
    ([split], [replace], [strip], [lower], [endswith], [in]), the part of
    Python's [re] its sixteen patterns use, [extract_fields], [is_fiscal],
    [get_text] and the loop of [PDFExtractorApp.process_pdfs]. *)

From Stdlib Require Import List NArith String Ascii Bool Arith Lia.
Import ListNotations.
Local Open Scope N_scope.
Local Open Scope list_scope.

(** ** Python strings

    A Python [str] is a sequence of Unicode code points. *)

Definition char := N.
Definition str := list char.

Definition str_eqb (a b : str) : bool :=
  if list_eq_dec N.eq_dec a b then true else false.

(** Source literals are written as Rocq string literals, which hold the
    UTF-8 bytes of the file: [utf8] decodes them into code points. *)
Fixpoint utf8_from (need : nat) (acc : N) (bs : list N) : str :=
  match bs with
  | [] => []
  | b :: bs' =>
      match need with
      | S n =>
          let acc' := acc * 64 + b mod 64 in
          match n with
          | O => acc' :: utf8_from 0 0 bs'
          | _ => utf8_from n acc' bs'
          end
      | O =>
          if b <? 128 then b :: utf8_from 0 0 bs'
          else if b <? 224 then utf8_from 1 (b mod 32) bs'
          else if b <? 240 then utf8_from 2 (b mod 16) bs'
          else utf8_from 3 (b mod 8) bs'
      end
  end.

Definition utf8 (s : string) : str :=
  utf8_from 0 0 (map N_of_ascii (list_ascii_of_string s)).

(** A non-raw Python literal: [utf8], then the escape [\n]. *)
Fixpoint unescape (s : str) : str :=
  match s with
  | 92 :: 110 :: s' => 10 :: unescape s'
  | c :: s' => c :: unescape s'
  | [] => []
  end.

Definition py (s : string) : str := unescape (utf8 s).

(** [s.startswith(prefix)] *)
Fixpoint startswith (s prefix : str) {struct prefix} : bool :=
  match prefix, s with
  | [], _ => true
  | p :: prefix', c :: s' => (c =? p) && startswith s' prefix'
  | _ :: _, [] => false
  end.

(** [s.endswith(suffix)] *)
Definition endswith (s suffix : str) : bool :=
  startswith (rev s) (rev suffix).

(** [sub in s] *)
Fixpoint contains (s sub : str) : bool :=
  match s with
  | [] => startswith [] sub
  | _ :: s' => startswith s sub || contains s' sub
  end.

(** [s.split(sep)] for a non-empty [sep] (Python raises ValueError on an
    empty one): the scan goes left to right and, at an occurrence of [sep],
    closes the current piece and skips the rest of the occurrence.
    [split_from] returns the piece being built and the pieces after it. *)
Fixpoint split_from (sep : str) (skip : nat) (s : str) : str * list str :=
  match s with
  | [] => ([], [])
  | c :: s' =>
      match skip with
      | S n => split_from sep n s'
      | O =>
          if startswith s sep
          then ([], let (p, ps) := split_from sep (Nat.pred (List.length sep)) s' in p :: ps)
          else let (p, ps) := split_from sep 0 s' in (c :: p, ps)
      end
  end.

Definition split (s sep : str) : list str :=
  let (p, ps) := split_from sep 0 s in p :: ps.

(** [l[0]] on the result of [split], which is never empty. *)
Definition item0 (l : list str) : str := hd [] l.

(** [s.replace(old, new)]: every occurrence of [old], found left to right
    without overlap, becomes [new]. With an empty [old], [new] is put
    before every character and at the end. *)
Fixpoint replace_from (old new : str) (skip : nat) (s : str) : str :=
  match s with
  | [] => []
  | c :: s' =>
      match skip with
      | S n => replace_from old new n s'
      | O =>
          if startswith s old
          then new ++ replace_from old new (Nat.pred (List.length old)) s'
          else c :: replace_from old new 0 s'
      end
  end.

Definition replace (s old new : str) : str :=
  match old with
  | [] => new ++ flat_map (fun c => c :: new) s
  | _ :: _ => replace_from old new 0 s
  end.

(** [str.isspace] on one code point: the whitespace of CPython's Unicode
    database, which [re]'s [\s] uses as well. *)
Definition isspace (c : char) : bool :=
  ((9 <=? c) && (c <=? 13)) || ((28 <=? c) && (c <=? 32))
  || (c =? 133) || (c =? 160) || (c =? 5760)
  || ((8192 <=? c) && (c <=? 8202))
  || (c =? 8232) || (c =? 8233) || (c =? 8239) || (c =? 8287) || (c =? 12288).

Fixpoint lstrip (s : str) : str :=
  match s with
  | c :: s' => if isspace c then lstrip s' else s
  | [] => []
  end.

Definition rstrip (s : str) : str := rev (lstrip (rev s)).

(** [s.strip()] *)
Definition strip (s : str) : str := rstrip (lstrip s).

(** ** The fragment of [re] the rule catalog uses

    Literals, the escapes [\n], [\s] and [\w], [.], bracket sets of literals
    and escapes (possibly negated), [*] and [*?] on one-character items,
    numbered groups and [?]. *)

Inductive category := CATEGORY_SPACE | CATEGORY_WORD.

Inductive set_item :=
| LITERAL (c : char)
| CATEGORY (k : category).

Inductive charset :=
| ANY
| ITEM (a : set_item)
| IN (negate : bool) (items : list set_item).

Inductive regex :=
| Empty
| One (cs : charset)
| Seq (a b : regex)
| Repeat (greedy : bool) (cs : charset)
| Subpattern (g : nat) (body : regex)
| Optional (body : regex).

(** *** Parsing a pattern

    One pass over the pattern with a stack of the groups that are open.
    [p_cur] holds the items of the sequence being read, last one first. *)

Inductive pmode :=
| Normal
| Escape
| SetOpen
| SetBody (negate : bool) (items : list set_item)
| SetEscape (negate : bool) (items : list set_item).

Record pstate := {
  p_mode : pmode;
  p_cur : list regex;
  p_outer : list (nat * list regex);
  p_groups : nat
}.

Definition escape_item (c : char) : option set_item :=
  if c =? 110 then Some (LITERAL 10)
  else if c =? 115 then Some (CATEGORY CATEGORY_SPACE)
  else if c =? 119 then Some (CATEGORY CATEGORY_WORD)
  else None.

Definition seq_of (cur : list regex) : regex :=
  fold_left (fun acc r => Seq r acc) cur Empty.

Definition push (st : pstate) (r : regex) : pstate :=
  {| p_mode := Normal; p_cur := r :: p_cur st;
     p_outer := p_outer st; p_groups := p_groups st |}.

Definition with_mode (st : pstate) (m : pmode) : pstate :=
  {| p_mode := m; p_cur := p_cur st;
     p_outer := p_outer st; p_groups := p_groups st |}.

Definition with_cur (st : pstate) (cur : list regex) : pstate :=
  {| p_mode := Normal; p_cur := cur;
     p_outer := p_outer st; p_groups := p_groups st |}.

Definition parse_normal (st : pstate) (c : char) : option pstate :=
  if c =? 92 (* \ *) then Some (with_mode st Escape)
  else if c =? 91 (* [ *) then Some (with_mode st SetOpen)
  else if c =? 40 (* ( *) then
    Some {| p_mode := Normal; p_cur := [];
            p_outer := (S (p_groups st), p_cur st) :: p_outer st;
            p_groups := S (p_groups st) |}
  else if c =? 41 (* ) *) then
    match p_outer st with
    | (g, before) :: outer =>
        Some {| p_mode := Normal;
                p_cur := Subpattern g (seq_of (p_cur st)) :: before;
                p_outer := outer; p_groups := p_groups st |}
    | [] => None
    end
  else if c =? 42 (* * *) then
    match p_cur st with
    | One cs :: before => Some (with_cur st (Repeat true cs :: before))
    | _ => None
    end
  else if c =? 63 (* ? *) then
    match p_cur st with
    | Repeat true cs :: before => Some (with_cur st (Repeat false cs :: before))
    | One cs :: before => Some (with_cur st (Optional (One cs) :: before))
    | Subpattern g r :: before =>
        Some (with_cur st (Optional (Subpattern g r) :: before))
    | _ => None
    end
  else if c =? 46 (* . *) then Some (push st (One ANY))
  else if existsb (N.eqb c) [43; 123; 125; 124; 94; 36; 93] (* + { } | ^ $ ] *)
  then None
  else Some (push st (One (ITEM (LITERAL c)))).

Definition parse_step (st : pstate) (c : char) : option pstate :=
  match p_mode st with
  | Normal => parse_normal st c
  | Escape =>
      match escape_item c with
      | Some a => Some (push st (One (ITEM a)))
      | None => None
      end
  | SetOpen =>
      if c =? 94 (* ^ *) then Some (with_mode st (SetBody true []))
      else if c =? 92 then Some (with_mode st (SetEscape false []))
      else if existsb (N.eqb c) [93; 91; 45] (* ] [ - *) then None
      else Some (with_mode st (SetBody false [LITERAL c]))
  | SetBody negate items =>
      if c =? 93 (* ] *) then
        match items with
        | [] => None
        | _ :: _ => Some (push st (One (IN negate (rev items))))
        end
      else if c =? 92 then Some (with_mode st (SetEscape negate items))
      else if existsb (N.eqb c) [91; 45] then None
      else Some (with_mode st (SetBody negate (LITERAL c :: items)))
  | SetEscape negate items =>
      match escape_item c with
      | Some a => Some (with_mode st (SetBody negate (a :: items)))
      | None => None
      end
  end.

Fixpoint parse_from (st : pstate) (p : str) : option pstate :=
  match p with
  | [] => Some st
  | c :: p' =>
      match parse_step st c with
      | Some st' => parse_from st' p'
      | None => None
      end
  end.

(** A compiled pattern: its syntax tree and its number of groups. *)
Record pattern := { p_tree : regex; p_ngroups : nat }.

(** [re.compile] of a raw string literal; [None] for a pattern outside the
    fragment. *)
Definition re_compile (source : string) : option pattern :=
  match parse_from {| p_mode := Normal; p_cur := []; p_outer := [];
                      p_groups := 0 |} (utf8 source) with
  | Some {| p_mode := Normal; p_cur := cur; p_outer := []; p_groups := n |} =>
      Some {| p_tree := seq_of cur; p_ngroups := n |}
  | _ => None
  end.

(** ** Exceptions *)

Inductive exn :=
| AttributeError       (* a method called on None *)
| IndexError           (* no such group *)
| KeyError (k : str)
| UnsupportedPattern   (* a pattern outside the fragment above *)
| FileDataError (path : str)
| FileNotFoundError (path : str).

Inductive result (A : Type) :=
| Ok (a : A)
| Raise (e : exn).
Arguments Ok {A} a.
Arguments Raise {A} e.

Definition bind {A B} (x : result A) (f : A -> result B) : result B :=
  match x with
  | Ok a => f a
  | Raise e => Raise e
  end.

Notation "x <- e ;; k" := (bind e (fun x => k))
  (at level 61, e at next level, right associativity).

(** ** Dictionaries

    A [dict] keeps its keys in insertion order: assigning to a key that is
    present keeps its place, a new key goes last. *)

Definition dict := list (str * str).

Fixpoint setitem (d : dict) (k v : str) : dict :=
  match d with
  | [] => [(k, v)]
  | (k', v') :: d' =>
      if str_eqb k' k then (k, v) :: d' else (k', v') :: setitem d' k v
  end.

Fixpoint get (d : dict) (k : str) : option str :=
  match d with
  | [] => None
  | (k', v) :: d' => if str_eqb k' k then Some v else get d' k
  end.

(** [d[k]] *)
Definition getitem (d : dict) (k : str) : result str :=
  match get d k with
  | Some v => Ok v
  | None => Raise (KeyError k)
  end.

Definition keys (d : dict) : list str := map fst d.

(** ** The host

    What the program runs on: the directory listing, the joining of
    paths, and PyMuPDF, which gives the text of each page of a file or
    raises. *)
Class host := {
  os_listdir : str -> list str;
  os_path_join : str -> str -> str;
  fitz_open : str -> result (list str)
}.

(** The tables of CPython's Unicode database the program reaches through
    [\w] and [str.lower], outside ASCII. They are not part of the repository:
    everything below holds for any such tables. *)
Class unicode_db := {
  unicode_isalnum : char -> bool;
  unicode_lower : str -> str
}.

Section Program.
Context {U : unicode_db} {H : host}.

(** [str.isalnum] on one code point. *)
Definition isalnum (c : char) : bool :=
  if c <? 128
  then ((48 <=? c) && (c <=? 57)) || ((65 <=? c) && (c <=? 90))
       || ((97 <=? c) && (c <=? 122))
  else unicode_isalnum c.

(** [s.lower()]; CPython lowers an all-ASCII string byte by byte. *)
Definition lower (s : str) : str :=
  if forallb (fun c => c <? 128) s
  then map (fun c => if (65 <=? c) && (c <=? 90) then c + 32 else c) s
  else unicode_lower s.

Definition item_matches (a : set_item) (c : char) : bool :=
  match a with
  | LITERAL x => c =? x
  | CATEGORY CATEGORY_SPACE => isspace c
  | CATEGORY CATEGORY_WORD => isalnum c || (c =? 95)
  end.

Definition charset_matches (cs : charset) (c : char) : bool :=
  match cs with
  | ANY => negb (c =? 10)
  | ITEM a => item_matches a c
  | IN negate items => xorb negate (existsb (fun a => item_matches a c) items)
  end.

(** *** Matching

    A backtracking matcher in continuation style, trying the alternatives in
    the order [re] does: a greedy repeat takes as many characters as it can
    and gives them back one by one, a lazy one takes them one by one, and
    [?] first tries its body. The marks record the text of each group that
    took part in the match. *)

Definition marks := list (nat * str).

Definition orelse {A} (a b : option A) : option A :=
  match a with
  | Some x => Some x
  | None => b
  end.

Fixpoint repeat_max {A} (p : char -> bool) (s : str) (k : str -> option A)
  : option A :=
  match s with
  | c :: s' => if p c then orelse (repeat_max p s' k) (k s) else k s
  | [] => k s
  end.

Fixpoint repeat_min {A} (p : char -> bool) (s : str) (k : str -> option A)
  : option A :=
  orelse (k s)
    match s with
    | c :: s' => if p c then repeat_min p s' k else None
    | [] => None
    end.

(** The text between two positions, each given as the rest of the subject. *)
Definition span (from to : str) : str :=
  firstn (List.length from - List.length to)%nat from.

Fixpoint exec (r : regex) (s : str) (m : marks)
  (k : str -> marks -> option marks) : option marks :=
  match r with
  | Empty => k s m
  | One cs =>
      match s with
      | c :: s' => if charset_matches cs c then k s' m else None
      | [] => None
      end
  | Seq a b => exec a s m (fun s' m' => exec b s' m' k)
  | Repeat true cs => repeat_max (charset_matches cs) s (fun s' => k s' m)
  | Repeat false cs => repeat_min (charset_matches cs) s (fun s' => k s' m)
  | Subpattern g body =>
      exec body s m (fun s' m' => k s' ((g, span s s') :: m'))
  | Optional body => orelse (exec body s m k) (k s m)
  end.

(** [re.match]: a match at the start of [s]. *)
Definition match_here (r : regex) (s : str) : option marks :=
  exec r s [] (fun _ m => Some m).

(** [re.search]: the match at the leftmost position that has one. *)
Fixpoint search_from (r : regex) (s : str) : option marks :=
  orelse (match_here r s)
    match s with
    | _ :: s' => search_from r s'
    | [] => None
    end.

(** A match object: the number of groups of its pattern and the marks. *)
Record rmatch := { m_ngroups : nat; m_marks : marks }.

Fixpoint lookup_mark (m : marks) (g : nat) : option str :=
  match m with
  | (g', t) :: m' => if Nat.eqb g' g then Some t else lookup_mark m' g
  | [] => None
  end.

(** [re.search(patron, texto)]; Python's [None] is [None]. *)
Definition re_search (patron : string) (texto : str) : result (option rmatch) :=
  match re_compile patron with
  | None => Raise UnsupportedPattern
  | Some p =>
      Ok (match search_from (p_tree p) texto with
          | Some m => Some {| m_ngroups := p_ngroups p; m_marks := m |}
          | None => None
          end)
  end.

(** [m.group(g)] for [g >= 1]: [None] when the group took no part. *)
Definition group (m : rmatch) (g : nat) : result (option str) :=
  if (g <=? m_ngroups m)%nat then Ok (lookup_mark (m_marks m) g)
  else Raise IndexError.

(** [x.strip()] where [x] may be None. *)
Definition strip_method (x : option str) : result str :=
  match x with
  | Some s => Ok (strip s)
  | None => Raise AttributeError
  end.

(** ** [extract_fields] *)

(** Lines 41 to 47: the text the patterns are applied to. *)
Definition normalize (texto : str) : str :=
  let texto := item0 (split texto (py "Actividades Económicas:")) in
  let texto := item0 (split texto (py "Susdatospersonales sonincorporados yprotegidos enlossistemas delSAT,deconformidad conlosLineamientos deProtección deDatos")) in
  let texto := replace texto (py "Página  [2] de [2]") [] in
  let texto := replace texto (py "Página  [2] de [3]") [] in
  let texto := replace texto (py "Página  [2] de [4]") [] in
  let texto := replace texto (py "Página  [2] de [5]") [] in
  let texto := replace texto (py "Página  [2] de [6]") [] in
  texto.

Local Open Scope string_scope.

(** The rule catalog, in the order of the dict literal: the name of each
    field and its pattern, a raw string. *)
Definition patrones : list (str * string) := [
  (py "Cédula de Identificación fiscal", "CÉDULA DE IDENTIFICACIÓN FISCAL \n([\w]*)?");
  (py "CURP", "CURP:\n([\w]*)?");
  (py "RFC", "RFC:\n([\w]*)?");
  (py "Nombre o Razón Social", "Registro\s*Federal\s*de\s*Contribuyentes\n([^\n]*)?\nNombre,\s*denominación\s*o\s*razón");
  (py "Código Postal", "Código\s*Postal:\s*(.*?)?\nTipo\s*de\s*Vialidad:");
  (py "Tipo Vialidad", "Tipo\s*de\s*Vialidad:\s*(.*?)?\nNombre\s*de\s*Vialidad:");
  (py "Nombre Vialidad", "Nombre\s*de\s*Vialidad:\s*(.*?)?\s*Número\s*Exterior:");
  (py "Número Exterior", "Número\s*Exterior:\s*([^\n]*)?");
  (py "Número Interior", "Número\s*Interior:\s*(.*?)?\n*Nombre");
  (py "Nombre Colonia", "Nombre\s*de\s*la\s*Colonia:\s*([^\n]*)?");
  (py "Nombre Localidad", "Nombre\s*de\s*la\s*Localidad:\s*(.*?)?\s*Nombre");
  (py "Nombre Municipio o Demarcación Territorial", "\s*Territorial:\s*(.*?)?\n(.*?)?\s*Nombre\s*de\s*la\s*Entidad\s*Federativa:");
  (py "Nombre Entidad Federativa", "Nombre\s*de\s*la\s*Entidad\s*Federativa:\s*(.*?)?\s*\n");
  (py "Entre Calle", "Entre\s*Calle:\s*(.*?)?\n(.*?)?\s*Y\s*Calle:");
  (py "Y Calle", "Y\s*Calle:\s*([^\n]*)?");
  (py "Fecha y lugar de emisión", "Lugar y Fecha de Emisión\n*([^\n]*)\n*([^\n]*)?")
].

Local Close Scope string_scope.

(** Line 72: the groups of a match, stripped and joined. *)
Definition field_text (coincidencia : rmatch) : result str :=
  if (1 <? m_ngroups coincidencia)%nat
  then
    g1 <- group coincidencia 1 ;;
    s1 <- strip_method g1 ;;
    g2 <- group coincidencia 2 ;;
    s2 <- strip_method g2 ;;
    Ok (s1 ++ py " " ++ s2)
  else
    g1 <- group coincidencia 1 ;;
    strip_method g1.

(** Lines 70 to 76: the body of the loop, for one rule. *)
Definition extract_field (texto : str) (resultado : dict)
  (campo : str) (patron : string) : result dict :=
  coincidencia <- re_search patron texto ;;
  match coincidencia with
  | Some m =>
      v <- field_text m ;;
      let resultado := setitem resultado campo v in
      if str_eqb campo (py "Fecha y lugar de emisión")
      then
        actual <- getitem resultado campo ;;
        rfc <- getitem resultado (py "RFC") ;;
        Ok (setitem resultado campo (replace actual rfc []))
      else Ok resultado
  | None => Ok (setitem resultado campo (py "N/A"))
  end.

(** Lines 69 to 76: the loop over [patrones.items()]. *)
Fixpoint extract_loop (texto : str) (rules : list (str * string))
  (resultado : dict) : result dict :=
  match rules with
  | [] => Ok resultado
  | (campo, patron) :: rules' =>
      resultado' <- extract_field texto resultado campo patron ;;
      extract_loop texto rules' resultado'
  end.

Definition extract_fields (texto : str) : result dict :=
  extract_loop (normalize texto) patrones [].

(** ** [is_fiscal] *)

Definition is_fiscal (texto : str) : bool :=
  contains texto (py "CONSTANCIA DE SITUACIÓN FISCAL").

(** ** [get_text] and [process_pdfs] *)

Definition get_text (pdf_path : str) : result str :=
  doc <- fitz_open pdf_path ;;
  Ok (fold_left (fun text page => text ++ page) doc []).

(** What [process_pdfs] does to the outside, in order: [Warning] is the
    message box for a folder without PDFs, [Opened ruta] the call
    [get_text(ruta)], and [SetValue i total] stands for
    [self.progress.setValue(int((i / total) * 100))]. *)
Inductive event :=
| Warning
| Opened (ruta : str)
| SetValue (i total : nat).

(** Computations that log events and may raise. *)
Definition io (A : Type) := list event -> result A * list event.

Definition ret {A} (a : A) : io A := fun log => (Ok a, log).

Definition emit (e : event) : io unit := fun log => (Ok tt, log ++ [e]).

Definition lift {A} (x : result A) : io A := fun log => (x, log).

Definition io_bind {A B} (x : io A) (f : A -> io B) : io B :=
  fun log =>
    match x log with
    | (Ok a, log') => f a log'
    | (Raise e, log') => (Raise e, log')
    end.

Notation "x <<- e ;; k" := (io_bind e (fun x => k))
  (at level 61, e at next level, right associativity).

(** Line 182: the dict rebuilt with ['Archivo'] first. *)
Definition archivo_first (resultado : dict) : result dict :=
  fold_left
    (fun acc k => d <- acc ;; v <- getitem resultado k ;; Ok (setitem d k v))
    (py "Archivo"
     :: filter (fun key => negb (str_eqb key (py "Archivo"))) (keys resultado))
    (Ok []).

(** Lines 177 to 183, for one file whose text was read. *)
Definition process_text (archivo texto : str) (resultados : list dict)
  : result (list dict) :=
  if is_fiscal texto
  then
    resultado <- extract_fields texto ;;
    let resultado := setitem resultado (py "Archivo") archivo in
    resultado <- archivo_first resultado ;;
    Ok (resultados ++ [resultado])
  else Ok resultados.

(** Lines 176 to 185: the loop over [enumerate(archivos_pdf, 1)]. *)
Fixpoint process_loop (folder_path : str) (total i : nat)
  (archivos : list str) (resultados : list dict) : io (list dict) :=
  match archivos with
  | [] => ret resultados
  | archivo :: archivos' =>
      let ruta := os_path_join folder_path archivo in
      _ <<- emit (Opened ruta) ;;
      texto <<- lift (get_text ruta) ;;
      resultados <<- lift (process_text archivo texto resultados) ;;
      _ <<- emit (SetValue i total) ;;
      process_loop folder_path total (S i) archivos' resultados
  end.

(** Line 169: the files the batch is made of. *)
Definition archivos_pdf (folder_path : str) : list str :=
  filter (fun f => endswith (lower f) (py ".pdf")) (os_listdir folder_path).

(** [process_pdfs] up to the end of its loop: [None] when it warns that the
    folder holds no PDF and returns, otherwise the [resultados] that go to
    the save dialog and the export. *)
Definition process_pdfs (folder_path : str) : io (option (list dict)) :=
  let archivos := archivos_pdf folder_path in
  let total := List.length archivos in
  if Nat.eqb total 0
  then _ <<- emit Warning ;; ret None
  else
    resultados <<- process_loop folder_path total 1 archivos [] ;;
    ret (Some resultados).

End Program.

(** ** The specification's words

    Truncation at the first occurrence of a marker and deletion of every
    occurrence of a footer, stated through the index of the first
    occurrence; the normalizer of the specification is their composition. *)

(** [s.find(sub)] *)
Fixpoint find (s sub : str) : option nat :=
  match s with
  | [] => if startswith [] sub then Some 0%nat else None
  | _ :: s' => if startswith s sub then Some 0%nat else option_map S (find s' sub)
  end.

(** [s] cut at the first occurrence of [marker]; [s] when there is none. *)
Definition truncate_at (s marker : str) : str :=
  match find s marker with
  | Some i => firstn i s
  | None => s
  end.

(** [s] without the occurrences of [old]: the first one is taken out and
    the search goes on after it. [fuel] bounds the number of occurrences. *)
Fixpoint delete_all_from (fuel : nat) (s old : str) : str :=
  match fuel with
  | O => s
  | S n =>
      match find s old with
      | None => s
      | Some i =>
          firstn i s ++ delete_all_from n (skipn (i + List.length old) s) old
      end
  end.

Definition delete_all (s old : str) : str :=
  delete_all_from (List.length s) s old.

Definition section_header : str := py "Actividades Económicas:".

Definition privacy_notice : str :=
  py "Susdatospersonales sonincorporados yprotegidos enlossistemas delSAT,deconformidad conlosLineamientos deProtección deDatos".

(** 'Página  [2] de [N]' for N from 2 to 6. *)
Definition footers : list str :=
  map (fun n => py "Página  [2] de [" ++ [48 + n] ++ py "]") [2; 3; 4; 5; 6].

Definition normalize_spec (s : str) : str :=
  fold_left delete_all footers
    (truncate_at (truncate_at s section_header) privacy_notice).

(** The markers a second normalization would act on. *)
Definition boilerplate : list str := section_header :: privacy_notice :: footers.

(** No whitespace at either end. *)
Definition trimmed (v : str) : Prop :=
  (forall c t, v = c :: t -> isspace c = false)
  /\ (forall c t, v = t ++ [c] -> isspace c = false).

(** ** Static checks on patterns

    [nullable r]: [r] tries the empty match among its alternatives.
    [sure_groups r]: the groups every match of [r] sets. A [?] around a body
    that is nullable never skips it: the skip is tried last, where the body's
    empty match has already been tried and has failed. *)

Fixpoint nullable (r : regex) : bool :=
  match r with
  | Empty => true
  | One _ => false
  | Seq a b => nullable a && nullable b
  | Repeat _ _ => true
  | Subpattern _ body => nullable body
  | Optional _ => true
  end.

Fixpoint sure_groups (r : regex) : list nat :=
  match r with
  | Seq a b => sure_groups a ++ sure_groups b
  | Subpattern g body => g :: sure_groups body
  | Optional body => if nullable body then sure_groups body else []
  | _ => []
  end.

(** The failure of a continuation does not depend on the marks. *)
Definition uniform (k : str -> marks -> option marks) : Prop :=
  forall s m1 m2, k s m1 = None -> k s m2 = None.

(** Group [g] took part in the match. *)
Definition has (g : nat) (m : marks) : Prop := lookup_mark m g <> None.

(** The pattern is in the fragment, has one or two groups, and each of them
    is set by every match. *)
Definition well_formed (patron : string) : bool :=
  match re_compile patron with
  | Some p =>
      ((1 <=? p_ngroups p)%nat && (p_ngroups p <=? 2)%nat)
      && forallb (fun g => existsb (Nat.eqb g) (sure_groups (p_tree p)))
           (seq 1 (p_ngroups p))
  | None => false
  end.

(** In the order of the rules, ['RFC'] comes before
    ['Fecha y lugar de emisión']; [seen] tells whether it has come already. *)
Fixpoint rfc_before_fecha (seen : bool) (rules : list (str * string)) : bool :=
  match rules with
  | [] => true
  | (campo, _) :: rules' =>
      (if str_eqb campo (py "Fecha y lugar de emisión") then seen else true)
      && rfc_before_fecha (seen || str_eqb campo (py "RFC")) rules'
  end.

Fixpoint distinct (l : list str) : bool :=
  match l with
  | [] => true
  | x :: l' => negb (existsb (str_eqb x) l') && distinct l'
  end.

(** Two stripped texts joined by one space. *)
Definition joined (v : str) : Prop :=
  exists a b, trimmed a /\ trimmed b /\ v = a ++ py " " ++ b.

(** The number of groups of a pattern. *)
Definition groups_of (patron : string) : nat :=
  match re_compile patron with
  | Some p => p_ngroups p
  | None => O
  end.

(** The shape of the value the result map [d] holds for a rule: the
    sentinel; for a rule of one group, a stripped text; for a rule of two
    groups, two stripped texts joined by a space; for the issuance date,
    which has two groups, such a joined text without the occurrences of the
    RFC of [d]. *)
Definition field_result_shape (d : dict) (rule : str * string) : Prop :=
  let (campo, patron) := rule in
  exists v,
    get d campo = Some v
    /\ (v = py "N/A"
        \/ (groups_of patron = 1%nat /\ trimmed v)
        \/ (groups_of patron = 2%nat
            /\ campo <> py "Fecha y lugar de emisión" /\ joined v)
        \/ (groups_of patron = 2%nat
            /\ campo = py "Fecha y lugar de emisión"
            /\ exists raw rfc,
                 get d (py "RFC") = Some rfc
                 /\ joined raw
                 /\ v = replace raw rfc [])).

Section Values.
Context {U : unicode_db} {H : host}.

(** What one rule gives on the cleaned text, from its pattern alone:
    lines 70 to 72 and 76. *)
Definition field_value (patron : string) (texto : str) : result str :=
  coincidencia <- re_search patron texto ;;
  match coincidencia with
  | Some m => field_text m
  | None => Ok (py "N/A")
  end.

(** What the loop stores for one rule: [field_value], and for the issuance
    date that matched, the value without the RFC found in [resultado]. *)
Definition stored_value (resultado : dict) (campo : str) (patron : string)
  (texto : str) : result str :=
  coincidencia <- re_search patron texto ;;
  match coincidencia with
  | Some m =>
      v <- field_text m ;;
      if str_eqb campo (py "Fecha y lugar de emisión")
      then rfc <- getitem resultado (py "RFC") ;; Ok (replace v rfc [])
      else Ok v
  | None => Ok (py "N/A")
  end.

(** A file whose text can be read. *)
Definition readable (folder_path archivo : str) : Prop :=
  exists texto, get_text (os_path_join folder_path archivo) = Ok texto.

(** The file can be read and its text is a fiscal document. *)
Definition fiscal_file (folder_path archivo : str) : bool :=
  match get_text (os_path_join folder_path archivo) with
  | Ok texto => is_fiscal texto
  | Raise _ => false
  end.

(** The record of a file: its name under ['Archivo'], then its fields. *)
Definition is_record_of (folder_path archivo : str) (r : dict) : Prop :=
  exists texto campos,
    get_text (os_path_join folder_path archivo) = Ok texto
    /\ extract_fields texto = Ok campos
    /\ r = (py "Archivo", archivo) :: campos.

(** The events of a loop that reads every file: each is opened, then the
    progress bar is set. *)
Fixpoint full_trace (folder_path : str) (total i : nat) (archivos : list str)
  : list event :=
  match archivos with
  | [] => []
  | archivo :: archivos' =>
      Opened (os_path_join folder_path archivo) :: SetValue i total
      :: full_trace folder_path total (S i) archivos'
  end.

End Values.

(** ** Tables and hosts for the examples *)

(** The alphanumeric code points of Latin-1 above ASCII. *)
Definition latin1_isalnum (c : char) : bool :=
  existsb (N.eqb c) [170; 178; 179; 181; 185; 186; 188; 189; 190]
  || ((192 <=? c) && (c <=? 214)) || ((216 <=? c) && (c <=? 246))
  || ((248 <=? c) && (c <=? 255)).

(** The Unicode tables on Latin-1; the examples stay within it. *)
Definition latin1 : unicode_db := {|
  unicode_isalnum := latin1_isalnum;
  unicode_lower :=
    map (fun c => if ((65 <=? c) && (c <=? 90))
                     || (((192 <=? c) && (c <=? 222)) && negb (c =? 215))
                  then c + 32 else c)
|}.

(** A folder [d] with four entries: [a.PDF] is a fiscal document, [b.pdf]
    is another document, [c.pdf] cannot be opened, [notes.txt] is no PDF. *)
Definition folder_with_corrupt_file : host := {|
  os_listdir := fun _ => [py "a.PDF"; py "notes.txt"; py "c.pdf"; py "b.pdf"];
  os_path_join := fun a b => a ++ py "/" ++ b;
  fitz_open := fun ruta =>
    if str_eqb ruta (py "d/c.pdf") then Raise (FileDataError ruta)
    else if str_eqb ruta (py "d/a.PDF")
    then Ok [py "CONSTANCIA DE SITUACIÓN FISCAL\nCURP:"; py "\nX1 "]
    else Ok [py "hello"]
|}.

(** The same fiscal text under two names, and a file that is not fiscal. *)
Definition folder_with_two_fiscal : host := {|
  os_listdir := fun _ => [py "uno.pdf"; py "otro.pdf"; py "dos.PDF"];
  os_path_join := fun a b => a ++ py "/" ++ b;
  fitz_open := fun ruta =>
    if str_eqb ruta (py "d/otro.pdf") then Ok [py "hello"]
    else Ok [py "CONSTANCIA DE SITUACIÓN FISCAL\nRFC:\nXAXX010101000\n"]
|}.

(** ** The path of the export

    Lines 188 to 190 of [process_pdfs]: nothing is saved when the dialog gives
    an empty path; otherwise ".xlsx" is added to a path that does not end
    with it. *)
Definition excel_path (save_path : str) : option str :=
  match save_path with
  | [] => None
  | _ :: _ =>
      Some (if negb (endswith save_path (py ".xlsx"))
            then save_path ++ py ".xlsx"
            else save_path)
  end.

(** ** Patterns that begin with a label

    [take_while] and [drop_while] split a text at its first character that
    fails [p]. [literal_then l r] is the pattern that reads the characters of
    [l] and goes on with [r]. A pattern is [all_greedy] when it is made of
    greedy repeats, groups and [?] only: it matches at every position, and
    [greedy_run] gives where its match ends and the marks it sets. *)

Fixpoint take_while (p : char -> bool) (s : str) : str :=
  match s with
  | c :: s' => if p c then c :: take_while p s' else []
  | [] => []
  end.

Fixpoint drop_while (p : char -> bool) (s : str) : str :=
  match s with
  | c :: s' => if p c then drop_while p s' else s
  | [] => []
  end.

Definition literal_then (l : str) (r : regex) : regex :=
  fold_right (fun c acc => Seq (One (ITEM (LITERAL c))) acc) r l.

(** The literal characters a pattern starts with. *)
Fixpoint leading_literal (r : regex) : str :=
  match r with
  | Seq (One (ITEM (LITERAL c))) b => c :: leading_literal b
  | _ => []
  end.

(** The first literal run of a pattern, after the repeats it may start
    with: every match holds it. *)
Fixpoint required_literal (r : regex) : str :=
  match r with
  | Seq (Repeat _ _) b => required_literal b
  | _ => leading_literal r
  end.

(** The label of a rule: the required literal of its pattern. *)
Definition label_of (patron : string) : str :=
  match re_compile patron with
  | Some p => required_literal (p_tree p)
  | None => []
  end.

Fixpoint all_greedy (r : regex) : bool :=
  match r with
  | Empty => true
  | One _ => false
  | Seq a b => all_greedy a && all_greedy b
  | Repeat greedy _ => greedy
  | Subpattern _ body => all_greedy body
  | Optional body => all_greedy body
  end.

(** The optional group of word characters that ends the patterns of the
    three identifiers. *)
Definition word_group : regex :=
  Seq (Optional (Subpattern 1
         (Seq (Repeat true (IN false [CATEGORY CATEGORY_WORD])) Empty)))
    Empty.

(** The end of the issuance-date pattern: newlines, a group that reads a
    line, newlines, an optional group that reads a line. *)
Definition two_lines : regex :=
  Seq (Repeat true (ITEM (LITERAL 10)))
    (Seq (Subpattern 1 (Seq (Repeat true (IN true [LITERAL 10])) Empty))
       (Seq (Repeat true (ITEM (LITERAL 10)))
          (Seq (Optional (Subpattern 2
                  (Seq (Repeat true (IN true [LITERAL 10])) Empty)))
             Empty))).

Definition is_newline (c : char) : bool := c =? 10.

Definition not_newline (c : char) : bool := negb (c =? 10).

Section Greedy.
Context {U : unicode_db}.

(** A character of [\w]. *)
Definition is_word (c : char) : bool := isalnum c || (c =? 95).

Fixpoint greedy_run (r : regex) (s : str) (m : marks) : str * marks :=
  match r with
  | Seq a b => let (s', m') := greedy_run a s m in greedy_run b s' m'
  | Repeat true cs => (drop_while (charset_matches cs) s, m)
  | Subpattern g body =>
      let (s', m') := greedy_run body s m in (s', (g, span s s') :: m')
  | Optional body => greedy_run body s m
  | _ => (s, m)
  end.

(** The value of an identifier field on the cleaned text: "N/A" when its
    label does not occur, otherwise the run of word characters after the
    first occurrence of the label, stripped. *)
Definition word_after (label texto : str) : str :=
  match find texto label with
  | None => py "N/A"
  | Some i => strip (take_while is_word (skipn (i + List.length label) texto))
  end.

End Greedy.

(** The text of the issuance date before the RFC is taken out: "N/A" when
    the label does not occur; otherwise, after its first occurrence, the
    newlines are skipped, a line is read, the newlines are skipped and a
    second line is read; the two lines are stripped and joined by a space. *)
Definition two_lines_after (label texto : str) : option str :=
  match find texto label with
  | None => None
  | Some i =>
      let t1 := drop_while is_newline (skipn (i + List.length label) texto) in
      let t2 := drop_while is_newline (drop_while not_newline t1) in
      Some (strip (take_while not_newline t1) ++ py " "
              ++ strip (take_while not_newline t2))
  end.



Definition is_opened (ev : event) : bool :=
  match ev with
  | Opened _ => true
  | _ => false
  end.

(** ** The whole of [process_pdfs]

    Lines 169 to 194. After the loop the save dialog is shown; with a
    non-empty answer the results are written under [excel_path] of it and a
    message box confirms it; then the progress bar is set to 0. Nothing of
    this is reached after the warning of line 172, which returns, or after
    an exception. The answer of the dialog is an argument, and so is
    [to_excel], the writing of the file by pandas, which may raise. *)

Inductive ui_event :=
| During (ev : event)
| ToExcel (save_path : str) (resultados : list dict)
| Information (save_path : str)
| SetValueZero.

Definition is_progress (ev : ui_event) : bool :=
  match ev with
  | During (SetValue _ _) => true
  | SetValueZero => true
  | _ => false
  end.

Section WholeRun.
Context {U : unicode_db} {H : host}.
Variable to_excel : str -> list dict -> result unit.

(** Lines 187 to 194. *)
Definition save_results (answer : str) (resultados : list dict)
  : result unit * list ui_event :=
  match excel_path answer with
  | Some save_path =>
      match to_excel save_path resultados with
      | Ok _ =>
          (Ok tt, [ToExcel save_path resultados; Information save_path;
                   SetValueZero])
      | Raise e => (Raise e, [ToExcel save_path resultados])
      end
  | None => (Ok tt, [SetValueZero])
  end.

Definition process_pdfs_whole (folder_path answer : str)
  : result unit * list ui_event :=
  match process_pdfs folder_path [] with
  | (Ok (Some resultados), log) =>
      let (r, evs) := save_results answer resultados in
      (r, map During log ++ evs)
  | (Ok None, log) => (Ok tt, map During log)
  | (Raise e, log) => (Raise e, map During log)
  end.

End WholeRun.

(** ASCII letters taken to lower case, other characters kept. *)
Definition ascii_lower (c : char) : char :=
  if (65 <=? c) && (c <=? 90) then c + 32 else c.

(** ** String lemmas *)

Lemma startswith_app (p r : str) : startswith (p ++ r) p = true.
Proof.
  induction p as [|c p IH]; simpl; [reflexivity|].
  now rewrite N.eqb_refl, IH.
Qed.

Lemma startswith_inv (s p : str) :
  startswith s p = true -> exists r, s = p ++ r.
Proof.
  revert s; induction p as [|c p IH]; intros s Hs.
  - now exists s.
  - destruct s as [|d s]; simpl in Hs; [discriminate|].
    apply andb_true_iff in Hs as [Hd Hp].
    apply N.eqb_eq in Hd; subst d.
    destruct (IH _ Hp) as [r ->]. now exists r.
Qed.

Lemma contains_intro (a sub b : str) : contains (a ++ sub ++ b) sub = true.
Proof.
  induction a as [|c a IH].
  - cbn [app]. pose proof (startswith_app sub b) as Hs.
    destruct (sub ++ b); cbn [contains]; [assumption | now rewrite Hs].
  - cbn [app contains]. rewrite IH. apply orb_true_r.
Qed.

Lemma contains_inv (s sub : str) :
  contains s sub = true -> exists a b, s = a ++ sub ++ b.
Proof.
  induction s as [|c s IH]; simpl; intros Hs.
  - destruct sub; [now exists [], [] | discriminate].
  - apply orb_true_iff in Hs as [Hs|Hs].
    + destruct (startswith_inv (c :: s) sub Hs) as [r Hr].
      exists [], r. exact Hr.
    + destruct (IH Hs) as (a & b & ->). now exists (c :: a), b.
Qed.

Lemma item0_split (s sep : str) : item0 (split s sep) = fst (split_from sep 0 s).
Proof. unfold split. now destruct (split_from sep 0 s). Qed.

Lemma split_truncate (s sep : str) : item0 (split s sep) = truncate_at s sep.
Proof.
  rewrite item0_split. unfold truncate_at.
  induction s as [|c s IH]; simpl.
  - now destruct (startswith [] sep).
  - destruct (startswith (c :: s) sep); [reflexivity|].
    destruct (split_from sep 0 s) as [p ps]; simpl in *.
    destruct (find s sep); simpl; now rewrite IH.
Qed.

Lemma find_absent (s sub : str) : contains s sub = false -> find s sub = None.
Proof.
  induction s as [|c s IH]; simpl; intros Hs.
  - now rewrite Hs.
  - apply orb_false_iff in Hs as [H1 H2]. simpl in H1.
    rewrite H1, (IH H2). reflexivity.
Qed.

Lemma split_absent (s sep : str) :
  contains s sep = false -> item0 (split s sep) = s.
Proof.
  intros Hs. rewrite split_truncate. unfold truncate_at.
  now rewrite (find_absent _ _ Hs).
Qed.

Lemma replace_from_skip (old new : str) (k : nat) (s : str) :
  replace_from old new k s = replace_from old new 0 (skipn k s).
Proof.
  revert k; induction s as [|c s IH]; intros [|k]; try reflexivity.
  simpl skipn. rewrite <- IH. reflexivity.
Qed.

Lemma replace_from_find (old new s : str) :
  old <> [] ->
  replace_from old new 0 s =
  match find s old with
  | None => s
  | Some i =>
      firstn i s ++ new ++ replace_from old new 0 (skipn (i + List.length old) s)
  end.
Proof.
  intros Hold. induction s as [|c s IH].
  - simpl. destruct old; [contradiction | reflexivity].
  - cbn [replace_from find].
    destruct (startswith (c :: s) old) eqn:E.
    + rewrite replace_from_skip. simpl firstn. simpl app.
      destruct old as [|o old]; [contradiction|]. reflexivity.
    + rewrite IH. destruct (find s old); reflexivity.
Qed.

Lemma find_bound (s sub : str) (i : nat) :
  find s sub = Some i -> (i + List.length sub <= List.length s)%nat.
Proof.
  revert i; induction s as [|c s IH]; simpl; intros i Hi.
  - destruct sub; [|discriminate]. injection Hi as <-. simpl. lia.
  - destruct (startswith (c :: s) sub) eqn:E.
    + injection Hi as <-. destruct (startswith_inv _ _ E) as [r Hr].
      apply (f_equal (@List.length _)) in Hr. rewrite length_app in Hr.
      simpl in *. lia.
    + destruct (find s sub) as [j|]; [|discriminate].
      injection Hi as <-. specialize (IH _ eq_refl). simpl. lia.
Qed.

Lemma find_first (s sub : str) (i : nat) :
  find s sub = Some i ->
  startswith (skipn i s) sub = true
  /\ forall j, (j < i)%nat -> startswith (skipn j s) sub = false.
Proof.
  revert i; induction s as [|c s IH]; intros i; cbn [find].
  - destruct (startswith [] sub) eqn:E; [|discriminate].
    intros [= <-]. split; [exact E | intros j Hj; lia].
  - destruct (startswith (c :: s) sub) eqn:E.
    + intros [= <-]. split; [exact E | intros j Hj; lia].
    + destruct (find s sub) as [k|]; [|discriminate].
      intros [= <-]. destruct (IH k eq_refl) as [H1 H2].
      split; [exact H1|]. intros [|j] Hj; [exact E | apply H2; lia].
Qed.

Lemma replace_nonempty (s old new : str) :
  old <> [] -> replace s old new = replace_from old new 0 s.
Proof. destruct old; [contradiction | reflexivity]. Qed.

Lemma replace_delete_from (old : str) (fuel : nat) (s : str) :
  old <> [] -> (List.length s <= fuel)%nat ->
  replace s old [] = delete_all_from fuel s old.
Proof.
  intros Hold. rewrite replace_nonempty by assumption.
  assert (Hlen : (1 <= List.length old)%nat)
    by (destruct old; [contradiction | simpl; lia]).
  revert s; induction fuel as [|n IH]; intros s Hs.
  - destruct s; [reflexivity | simpl in Hs; lia].
  - rewrite replace_from_find by assumption. simpl.
    destruct (find s old) as [i|] eqn:E; [|reflexivity].
    f_equal. apply IH.
    pose proof (find_bound _ _ _ E). rewrite length_skipn. lia.
Qed.

Lemma replace_delete_all (s old : str) :
  old <> [] -> replace s old [] = delete_all s old.
Proof. intros Hold. now apply replace_delete_from. Qed.

Lemma replace_absent (s old new : str) :
  contains s old = false -> replace s old new = s.
Proof.
  intros Hs. destruct old as [|o old].
  - destruct s; discriminate.
  - rewrite replace_nonempty, replace_from_find by discriminate.
    now rewrite (find_absent _ _ Hs).
Qed.

Lemma replace_from_length (old : str) (s : str) :
  forall k, (List.length (replace_from old [] k s) <= List.length s)%nat.
Proof.
  induction s as [|c s IH]; intros k; cbn [replace_from List.length]; [lia|].
  destruct k as [|k]; [|specialize (IH k); lia].
  destruct (startswith (c :: s) old); cbn [app List.length].
  - specialize (IH (Nat.pred (List.length old))). lia.
  - specialize (IH 0%nat). lia.
Qed.

Lemma replace_nothing (s : str) : replace s [] [] = s.
Proof.
  cbn [replace app]. induction s as [|c s IH]; cbn [flat_map app]; [reflexivity|].
  now f_equal.
Qed.

Lemma find_present (s sub : str) :
  contains s sub = true -> exists i, find s sub = Some i.
Proof.
  induction s as [|c s IH]; cbn [contains find]; intros Hs.
  - rewrite Hs. now exists 0%nat.
  - destruct (startswith (c :: s) sub); [now exists 0%nat|].
    cbn [orb] in Hs. destruct (IH Hs) as [i ->]. now exists (S i).
Qed.

(** Taking [old] out of [s] leaves [s] as it is exactly when [old] is empty
    or does not occur in [s]. *)
Lemma replace_unchanged_iff (s old : str) :
  replace s old [] = s <-> old = [] \/ contains s old = false.
Proof.
  split.
  - intros Hr. destruct old as [|o old]; [now left | right].
    destruct (contains s (o :: old)) eqn:E; [|reflexivity].
    destruct (find_present _ _ E) as [i Hi].
    pose proof (find_bound _ _ _ Hi) as Hb.
    rewrite replace_nonempty, replace_from_find, Hi in Hr by discriminate.
    apply (f_equal (@List.length _)) in Hr.
    rewrite !length_app, length_firstn in Hr.
    pose proof (replace_from_length (o :: old)
                  (skipn (i + List.length (o :: old)) s) 0) as Hl.
    rewrite length_skipn in Hl. cbn [List.length] in *. lia.
  - intros [-> | Habs]; [apply replace_nothing | now apply replace_absent].
Qed.

Lemma lstrip_suffix (s : str) : exists p, s = p ++ lstrip s.
Proof.
  induction s as [|c s [p IH]]; simpl.
  - now exists [].
  - destruct (isspace c); [|now exists []].
    exists (c :: p). simpl. now f_equal.
Qed.

Lemma lstrip_head (s : str) (c : char) (t : str) :
  lstrip s = c :: t -> isspace c = false.
Proof.
  induction s as [|d s IH]; simpl; [discriminate|].
  destruct (isspace d) eqn:E; [assumption|].
  intros Hs. injection Hs as -> _. exact E.
Qed.

Lemma rstrip_prefix (s : str) : exists q, s = rstrip s ++ q.
Proof.
  unfold rstrip. destruct (lstrip_suffix (rev s)) as [p Hp].
  exists (rev p). rewrite <- rev_app_distr, <- Hp. symmetry. apply rev_involutive.
Qed.

Lemma rstrip_last (s : str) (c : char) (t : str) :
  rstrip s = t ++ [c] -> isspace c = false.
Proof.
  unfold rstrip. intros Hs.
  apply (f_equal (@rev _)) in Hs. rewrite rev_involutive, rev_app_distr in Hs.
  simpl in Hs. eapply lstrip_head; eassumption.
Qed.

Lemma strip_trimmed (s : str) : trimmed (strip s).
Proof.
  unfold strip. split; intros c t Hs.
  - destruct (rstrip_prefix (lstrip s)) as [q Hq].
    rewrite Hs in Hq. simpl in Hq. eapply lstrip_head; eassumption.
  - eapply rstrip_last; eassumption.
Qed.

(** ** The normalizer and the classifier *)

Lemma footers_literal :
  footers = [py "Página  [2] de [2]"; py "Página  [2] de [3]";
             py "Página  [2] de [4]"; py "Página  [2] de [5]";
             py "Página  [2] de [6]"].
Proof. reflexivity. Qed.

(** Literals are kept folded in proofs: each becomes a variable. *)
Ltac fold_literals :=
  repeat match goal with
         | |- context [py ?x] =>
             let v := fresh "lit" in set (v := py x) in *; clearbody v
         | H : context [py ?x] |- _ =>
             let v := fresh "lit" in set (v := py x) in *; clearbody v
         end.

Lemma normalize_fixed (t : str) :
  existsb (contains t) boilerplate = false -> normalize t = t.
Proof.
  unfold boilerplate. rewrite footers_literal. cbn [existsb].
  unfold normalize, section_header, privacy_notice.
  intros Ht. fold_literals.
  repeat (apply orb_false_iff in Ht as [?H Ht]).
  repeat match goal with
         | H : contains ?s ?l = false |- _ =>
             first [ rewrite (split_absent s l H)
                   | rewrite (replace_absent s l [] H) ]
         end.
  reflexivity.
Qed.

(** C5, amended. A second normalization changes nothing when the result of
    the first holds none of the seven markers: the two section markers and
    the five footers. *)
Theorem normalize_idempotent_on_clean_output (texto : str) :
  existsb (contains (normalize texto)) boilerplate = false ->
  normalize (normalize texto) = normalize texto.
Proof. apply normalize_fixed. Qed.

Lemma footers_nonempty : Forall (fun f => f <> []) footers.
Proof. repeat constructor; discriminate. Qed.

(** C4. Lines 41 to 47 compute the normalizer the specification describes:
    the text is cut at the first 'Actividades Económicas:', then at the first
    privacy notice (a marker that is absent cuts nothing), then every
    occurrence of each footer 'Página  [2] de [N]', N from 2 to 6 in this
    order, is deleted. Both sides are functions, defined on every string. *)
Theorem normalize_refines_spec (texto : str) :
  normalize texto = normalize_spec texto.
Proof.
  pose proof footers_nonempty as Hne. revert Hne.
  unfold normalize_spec. rewrite footers_literal.
  unfold normalize, section_header, privacy_notice.
  intros Hne. fold_literals. cbn [fold_left].
  repeat match goal with
         | H : Forall _ (_ :: _) |- _ => inversion H; subst; clear H
         end.
  rewrite !split_truncate.
  now rewrite !replace_delete_all by assumption.
Qed.

(** C2. [is_fiscal] is true exactly on the texts in which the marker
    'CONSTANCIA DE SITUACIÓN FISCAL' occurs as it is written; it is false on
    the empty text, on the marker in another case, without its accent, and on
    each of its proper prefixes. *)
Theorem is_fiscal_iff_marker :
  (forall texto : str,
     is_fiscal texto = true <->
     exists a b, texto = a ++ py "CONSTANCIA DE SITUACIÓN FISCAL" ++ b)
  /\ is_fiscal [] = false
  /\ is_fiscal (py "constancia de situación fiscal") = false
  /\ is_fiscal (py "Constancia de Situación Fiscal") = false
  /\ is_fiscal (py "xx CONSTANCIA DE SITUACION FISCAL xx") = false
  /\ forallb (fun n => negb (is_fiscal
                (py "xx " ++ firstn n (py "CONSTANCIA DE SITUACIÓN FISCAL")
                         ++ py " xx")))
       (seq 0 (List.length (py "CONSTANCIA DE SITUACIÓN FISCAL"))) = true.
Proof.
  split; [|repeat split; vm_compute; reflexivity].
  intros texto. unfold is_fiscal. split.
  - apply contains_inv.
  - intros (a & b & ->). apply contains_intro.
Qed.

(** ** Dictionary lemmas *)

Lemma str_eqb_eq (a b : str) : str_eqb a b = true <-> a = b.
Proof. unfold str_eqb. destruct (list_eq_dec N.eq_dec a b); split; congruence. Qed.

Lemma str_eqb_refl (a : str) : str_eqb a a = true.
Proof. now apply str_eqb_eq. Qed.

Lemma str_eqb_neq (a b : str) : a <> b -> str_eqb a b = false.
Proof. unfold str_eqb. destruct (list_eq_dec N.eq_dec a b); congruence. Qed.

Lemma setitem_fresh (d : dict) (k v : str) :
  ~ In k (keys d) -> setitem d k v = d ++ [(k, v)].
Proof.
  induction d as [|[k' v'] d IH]; simpl; intros Hk; [reflexivity|].
  rewrite str_eqb_neq by tauto. f_equal. apply IH. tauto.
Qed.

Lemma setitem_twice (d : dict) (k v w : str) :
  setitem (setitem d k v) k w = setitem d k w.
Proof.
  induction d as [|[k' v'] d IH]; simpl.
  - now rewrite str_eqb_refl.
  - destruct (str_eqb k' k) eqn:E; simpl.
    + now rewrite str_eqb_refl.
    + now rewrite E, IH.
Qed.

Lemma get_setitem_same (d : dict) (k v : str) : get (setitem d k v) k = Some v.
Proof.
  induction d as [|[k' v'] d IH]; simpl.
  - now rewrite str_eqb_refl.
  - destruct (str_eqb k' k) eqn:E; simpl.
    + now rewrite str_eqb_refl.
    + now rewrite E.
Qed.

Lemma get_setitem_other (d : dict) (k v k0 : str) :
  k0 <> k -> get (setitem d k v) k0 = get d k0.
Proof.
  intros Hk. induction d as [|[k' v'] d IH]; simpl.
  - rewrite str_eqb_neq by congruence. reflexivity.
  - destruct (str_eqb k' k) eqn:E; simpl.
    + apply str_eqb_eq in E; subst k'.
      now rewrite !(str_eqb_neq k k0) by congruence.
    + destruct (str_eqb k' k0); [reflexivity | exact IH].
Qed.

Lemma get_in_keys (d : dict) (k : str) : In k (keys d) <-> get d k <> None.
Proof.
  induction d as [|[k' v'] d IH]; simpl; [tauto|].
  destruct (str_eqb k' k) eqn:E.
  - apply str_eqb_eq in E. split; [discriminate | tauto].
  - rewrite <- IH. split; [intros [Hk|Hk] | tauto]; [|assumption].
    subst. now rewrite str_eqb_refl in E.
Qed.

Lemma keys_app (d e : dict) : keys (d ++ e) = keys d ++ keys e.
Proof. apply map_app. Qed.

(** ** The matcher sets the groups a pattern is sure of *)

Section Matching.
Context {U : unicode_db}.

Lemma orelse_none {A} (a b : option A) :
  orelse a b = None <-> a = None /\ b = None.
Proof. destruct a; simpl; intuition congruence. Qed.

Lemma repeat_max_none {A B} (p : char -> bool) (k1 : str -> option A)
  (k2 : str -> option B) :
  (forall s, k1 s = None -> k2 s = None) ->
  forall s, repeat_max p s k1 = None -> repeat_max p s k2 = None.
Proof.
  intros Hk s; induction s as [|c s IH]; simpl; [apply Hk|].
  destruct (p c); [|apply Hk].
  rewrite !orelse_none. intros [H1 H2]. auto.
Qed.

Lemma repeat_min_none {A B} (p : char -> bool) (k1 : str -> option A)
  (k2 : str -> option B) :
  (forall s, k1 s = None -> k2 s = None) ->
  forall s, repeat_min p s k1 = None -> repeat_min p s k2 = None.
Proof.
  intros Hk s; induction s as [|c s IH]; simpl;
    rewrite !orelse_none; intros [H1 H2]; split; auto.
  destruct (p c); auto.
Qed.

Lemma repeat_max_here {A} (p : char -> bool) (k : str -> option A) (s : str) :
  repeat_max p s k = None -> k s = None.
Proof.
  destruct s as [|c s]; simpl; [trivial|].
  destruct (p c); [|trivial]. rewrite orelse_none. tauto.
Qed.

Lemma repeat_min_here {A} (p : char -> bool) (k : str -> option A) (s : str) :
  repeat_min p s k = None -> k s = None.
Proof. destruct s; simpl; rewrite orelse_none; tauto. Qed.

Lemma repeat_max_some {A} (p : char -> bool) (k : str -> option A) (s : str) x :
  repeat_max p s k = Some x -> exists s', k s' = Some x.
Proof.
  induction s as [|c s IH]; simpl; [eauto|].
  destruct (p c); [|eauto].
  destruct (repeat_max p s k) eqn:E; simpl; [|eauto].
  intros [= <-]. auto.
Qed.

Lemma repeat_min_some {A} (p : char -> bool) (k : str -> option A) (s : str) x :
  repeat_min p s k = Some x -> exists s', k s' = Some x.
Proof.
  induction s as [|c s IH]; simpl.
  - destruct (k []) eqn:E; simpl; [|discriminate]. intros [= <-]. eauto.
  - destruct (k (c :: s)) eqn:E; simpl; [intros [= <-]; eauto|].
    destruct (p c); [auto | discriminate].
Qed.

Lemma exec_none (r : regex) :
  forall k1 k2 : str -> marks -> option marks,
    (forall s m1 m2, k1 s m1 = None -> k2 s m2 = None) ->
    forall s m1 m2, exec r s m1 k1 = None -> exec r s m2 k2 = None.
Proof.
  induction r as [|cs|a IHa b IHb|greedy cs|g body IH|body IH];
    intros k1 k2 Hk s m1 m2; simpl.
  - apply Hk.
  - destruct s as [|c s]; [trivial|].
    destruct (charset_matches cs c); [apply Hk | trivial].
  - apply IHa. intros s' m1' m2'. now apply IHb.
  - destruct greedy; [apply repeat_max_none | apply repeat_min_none];
      intros s'; apply Hk.
  - apply IH. intros s' m1' m2'. apply Hk.
  - rewrite !orelse_none. intros [H1 H2]. split.
    + eapply IH; eassumption.
    + eapply Hk; eassumption.
Qed.

Lemma exec_uniform (r : regex) (k : str -> marks -> option marks) :
  uniform k -> uniform (fun s m => exec r s m k).
Proof. intros Hk s m1 m2. now apply exec_none. Qed.

Lemma exec_nullable (r : regex) :
  nullable r = true ->
  forall k, uniform k -> forall s m, exec r s m k = None -> k s m = None.
Proof.
  induction r as [|cs|a IHa b IHb|greedy cs|g body IH|body IH];
    simpl; intros Hn k Hk s m He.
  - exact He.
  - discriminate.
  - apply andb_true_iff in Hn as [Ha Hb].
    apply IHb; [assumption..|].
    apply (IHa Ha (fun s' m' => exec b s' m' k)); [|exact He].
    now apply exec_uniform.
  - destruct greedy;
      [apply repeat_max_here in He | apply repeat_min_here in He]; exact He.
  - apply (Hk s ((g, span s s) :: m)).
    apply (IH Hn (fun s' m' => k s' ((g, span s s') :: m'))); [|exact He].
    intros s' m1 m2. apply Hk.
  - apply orelse_none in He. tauto.
Qed.

Lemma exec_optional (body : regex) (k : str -> marks -> option marks) s m :
  nullable body = true -> uniform k ->
  exec (Optional body) s m k = exec body s m k.
Proof.
  intros Hn Hk. simpl. destruct (exec body s m k) eqn:E; [reflexivity|].
  simpl. eapply exec_nullable; eassumption.
Qed.

Lemma has_cons (g g' : nat) (t : str) (m : marks) :
  g = g' \/ has g m -> has g ((g', t) :: m).
Proof.
  unfold has. simpl. destruct (Nat.eqb g' g) eqn:E; [discriminate|].
  intros [->|Hg]; [|assumption]. now rewrite Nat.eqb_refl in E.
Qed.

Lemma exec_sure_groups (r : regex) :
  forall (k : str -> marks -> option marks) (G : list nat) (J : marks -> Prop),
    uniform k ->
    (forall s m m',
        (forall g, In g (sure_groups r ++ G) -> has g m) ->
        k s m = Some m' -> J m') ->
    forall s m m',
      (forall g, In g G -> has g m) -> exec r s m k = Some m' -> J m'.
Proof.
  induction r as [|cs|a IHa b IHb|greedy cs|g body IH|body IH];
    intros k G J Hu Hk s m m' Hm; simpl.
  - now apply Hk.
  - destruct s as [|c s]; [discriminate|].
    destruct (charset_matches cs c); [now apply Hk | discriminate].
  - apply (IHa (fun s' m' => exec b s' m' k) G J); [now apply exec_uniform| |assumption].
    intros s1 m1 m1' Hm1. apply (IHb k (sure_groups a ++ G) J); [assumption| |assumption].
    intros s2 m2 m2' Hm2. apply Hk. intros g0 Hg0. apply Hm2.
    simpl in Hg0. rewrite !in_app_iff in *. tauto.
  - destruct greedy; intros He;
      [apply repeat_max_some in He | apply repeat_min_some in He];
      destruct He as [s' He]; revert He; now apply Hk.
  - apply (IH (fun s' m' => k s' ((g, span s s') :: m')) G J); [| |assumption].
    + intros s' m1 m2. apply Hu.
    + intros s1 m1 m1' Hm1. apply Hk. intros g0 Hg0. apply has_cons.
      simpl in Hg0. destruct Hg0 as [->|Hg0]; auto.
  - change (exec (Optional body) s m k = Some m' -> J m').
    simpl in Hk. destruct (nullable body) eqn:Hn.
    + rewrite exec_optional by assumption. now apply (IH k G J).
    + simpl. destruct (exec body s m k) eqn:E; simpl.
      * intros [= <-]. revert E. apply (IH k G J); [assumption| |assumption].
        intros s1 m1 m1' Hm1. apply Hk. intros g0 Hg0. apply Hm1.
        rewrite in_app_iff. tauto.
      * now apply Hk.
Qed.

Lemma match_here_sure_groups (r : regex) (s : str) (m : marks) :
  match_here r s = Some m -> forall g, In g (sure_groups r) -> has g m.
Proof.
  unfold match_here.
  apply (exec_sure_groups r (fun _ m0 => Some m0) []
           (fun m' => forall g, In g (sure_groups r) -> has g m')).
  - intros s0 m1 m2; discriminate.
  - intros s0 m0 m' Hm [= <-] g Hg. apply Hm. rewrite in_app_iff. tauto.
  - intros g [].
Qed.

Lemma search_sure_groups (r : regex) (s : str) (m : marks) :
  search_from r s = Some m -> forall g, In g (sure_groups r) -> has g m.
Proof.
  induction s as [|c s IH]; simpl;
    destruct (match_here r _) eqn:E; simpl;
    try discriminate; try exact IH;
    intros [= <-]; revert E; apply match_here_sure_groups.
Qed.

End Matching.

(** ** The loop of [extract_fields] *)

Lemma distinct_NoDup (l : list str) : distinct l = true -> NoDup l.
Proof.
  induction l as [|x l IH]; simpl; intros Hl; constructor;
    apply andb_true_iff in Hl as [Hx Hl]; [|auto].
  intros Hin. apply negb_true_iff in Hx.
  assert (existsb (str_eqb x) l = true); [|congruence].
  apply existsb_exists. exists x. split; [assumption | apply str_eqb_refl].
Qed.

Lemma well_formed_inv (patron : string) :
  well_formed patron = true ->
  exists p, re_compile patron = Some p
            /\ (p_ngroups p = 1 \/ p_ngroups p = 2)%nat
            /\ forall g, (1 <= g <= p_ngroups p)%nat ->
                         In g (sure_groups (p_tree p)).
Proof.
  unfold well_formed. destruct (re_compile patron) as [p|]; [|discriminate].
  intros Hw. apply andb_true_iff in Hw as [Hn Hg].
  apply andb_true_iff in Hn as [H1 H2].
  apply Nat.leb_le in H1, H2.
  exists p. split; [reflexivity|]. split; [lia|].
  intros g Hg'. rewrite forallb_forall in Hg.
  specialize (Hg g). rewrite in_seq in Hg.
  destruct (proj1 (existsb_exists _ _) (Hg ltac:(lia))) as (g' & Hin & Heq).
  apply Nat.eqb_eq in Heq. now subst.
Qed.

Lemma patrones_well_formed :
  Forall (fun '(_, patron) => well_formed patron = true) patrones.
Proof. repeat constructor. Qed.

Lemma patrones_distinct : NoDup (map fst patrones).
Proof. apply distinct_NoDup. vm_compute. reflexivity. Qed.

Lemma patrones_order : rfc_before_fecha false patrones = true.
Proof. vm_compute. reflexivity. Qed.

Section Extraction.
Context {U : unicode_db}.

Lemma field_text_ok (n : nat) (m : marks) :
  (n = 1 \/ n = 2)%nat ->
  (forall g, (1 <= g <= n)%nat -> has g m) ->
  exists v, field_text {| m_ngroups := n; m_marks := m |} = Ok v
            /\ (trimmed v \/ joined v).
Proof.
  intros Hn Hm. unfold field_text, group, has in *. simpl.
  destruct Hn as [-> | ->]; simpl.
  - destruct (lookup_mark m 1) as [g1|] eqn:E1; [|now destruct (Hm 1%nat ltac:(lia))].
    simpl. eexists. split; [reflexivity|]. left. apply strip_trimmed.
  - destruct (lookup_mark m 1) as [g1|] eqn:E1; [|now destruct (Hm 1%nat ltac:(lia))].
    destruct (lookup_mark m 2) as [g2|] eqn:E2; [|now destruct (Hm 2%nat ltac:(lia))].
    simpl. eexists. split; [reflexivity|]. right.
    exists (strip g1), (strip g2). auto using strip_trimmed.
Qed.

Lemma re_search_ok (patron : string) (texto : str) :
  well_formed patron = true ->
  re_search patron texto = Ok None
  \/ exists m v, re_search patron texto = Ok (Some m)
                 /\ field_text m = Ok v /\ (trimmed v \/ joined v).
Proof.
  intros Hw. destruct (well_formed_inv _ Hw) as (p & Hp & Hn & Hg).
  unfold re_search. rewrite Hp.
  destruct (search_from (p_tree p) texto) as [m|] eqn:E; [right | now left].
  destruct (field_text_ok (p_ngroups p) m Hn) as (v & Hv & Hs).
  - intros g Hg'. eapply search_sure_groups; eauto.
  - eauto.
Qed.

(** One turn of the loop stores [stored_value] under [campo]. *)
Lemma extract_field_spec (texto : str) (resultado : dict) (campo : str)
  (patron : string) :
  well_formed patron = true ->
  (campo = py "Fecha y lugar de emisión" -> In (py "RFC") (keys resultado)) ->
  exists v, stored_value resultado campo patron texto = Ok v
            /\ extract_field texto resultado campo patron
               = Ok (setitem resultado campo v).
Proof.
  intros Hw Hrfc. unfold stored_value, extract_field.
  destruct (re_search_ok patron texto Hw) as [-> | (m & v & Hm & Hv & Hs)];
    [simpl; eauto|].
  rewrite Hm. simpl. rewrite Hv. simpl.
  destruct (str_eqb campo (py "Fecha y lugar de emisión")) eqn:E; [|eauto].
  apply str_eqb_eq in E. specialize (Hrfc E).
  unfold getitem. rewrite get_setitem_same. simpl.
  rewrite get_setitem_other by (subst campo; vm_compute; discriminate).
  apply get_in_keys in Hrfc.
  destruct (get resultado (py "RFC")) as [rfc|]; [|contradiction].
  simpl. rewrite setitem_twice. eauto.
Qed.

Lemma stored_value_ext (d e : dict) (campo : str) (patron : string) (texto : str) :
  (campo = py "Fecha y lugar de emisión" -> get d (py "RFC") = get e (py "RFC")) ->
  stored_value d campo patron texto = stored_value e campo patron texto.
Proof.
  intros Hd. unfold stored_value.
  destruct (re_search patron texto) as [[m|]|]; simpl; try reflexivity.
  destruct (field_text m); simpl; [|reflexivity].
  destruct (str_eqb campo (py "Fecha y lugar de emisión")) eqn:E; [|reflexivity].
  apply str_eqb_eq in E. unfold getitem. now rewrite (Hd E).
Qed.

Lemma extract_loop_app (texto : str) (l1 l2 : list (str * string)) :
  forall resultado,
    extract_loop texto (l1 ++ l2) resultado
    = (d <- extract_loop texto l1 resultado ;; extract_loop texto l2 d).
Proof.
  induction l1 as [|[campo patron] l1 IH]; intros resultado; [reflexivity|].
  cbn [app extract_loop].
  destruct (extract_field texto resultado campo patron); cbn [bind]; auto.
Qed.

Lemma extract_loop_spec (texto : str) (rules : list (str * string)) :
  forall (resultado : dict) (seen : bool),
    Forall (fun '(_, patron) => well_formed patron = true) rules ->
    NoDup (keys resultado ++ map fst rules) ->
    rfc_before_fecha seen rules = true ->
    (seen = true -> In (py "RFC") (keys resultado)) ->
    exists d,
      extract_loop texto rules resultado = Ok d
      /\ keys d = keys resultado ++ map fst rules
      /\ (forall k, In k (keys resultado) -> get d k = get resultado k)
      /\ Forall (fun '(campo, patron) =>
                   exists v, stored_value d campo patron texto = Ok v
                             /\ get d campo = Some v) rules.
Proof.
  induction rules as [|[campo patron] rules IH];
    intros resultado seen Hw Hnd Hord Hseen.
  - exists resultado. simpl. rewrite app_nil_r. auto.
  - inversion Hw as [|? ? Hw1 Hw2]; subst. simpl in Hw1.
    simpl in Hord. apply andb_true_iff in Hord as [Hfecha Hord].
    assert (Hrfc : campo = py "Fecha y lugar de emisión" ->
                   In (py "RFC") (keys resultado)).
    { intros ->. rewrite str_eqb_refl in Hfecha. auto. }
    destruct (extract_field_spec texto resultado campo patron Hw1 Hrfc) as (v & Hv & He).
    assert (Hfresh : ~ In campo (keys resultado)).
    { simpl in Hnd. apply NoDup_remove_2 in Hnd. rewrite in_app_iff in Hnd. tauto. }
    rewrite setitem_fresh in He by assumption.
    destruct (IH (resultado ++ [(campo, v)]) (seen || str_eqb campo (py "RFC"))%bool)
      as (d & Hd & Hkeys & Hget & Hall); try assumption.
    { rewrite keys_app. simpl. rewrite <- app_assoc. exact Hnd. }
    { rewrite keys_app, in_app_iff. simpl. intros Hs.
      apply orb_true_iff in Hs as [Hs|Hs]; [auto|].
      apply str_eqb_eq in Hs. auto. }
    rewrite keys_app in Hkeys, Hget. simpl in Hkeys. rewrite <- app_assoc in Hkeys.
    assert (Hold : forall k, In k (keys resultado) -> get d k = get resultado k).
    { intros k Hk. rewrite Hget by (rewrite in_app_iff; auto).
      rewrite <- (setitem_fresh _ _ v Hfresh).
      apply get_setitem_other. intros ->. contradiction. }
    exists d. simpl. rewrite He. simpl. repeat split; try assumption.
    constructor; [|assumption]. simpl. exists v. split.
    + rewrite <- Hv. apply stored_value_ext. intros Hc. auto.
    + rewrite Hget by (rewrite in_app_iff; simpl; auto).
      rewrite <- (setitem_fresh _ _ v Hfresh). apply get_setitem_same.
Qed.

(** The result of [extract_fields] in closed form. *)
Lemma extract_fields_spec (texto : str) :
  exists d,
    extract_fields texto = Ok d
    /\ keys d = map fst patrones
    /\ Forall (fun '(campo, patron) =>
                 exists v,
                   stored_value d campo patron (normalize texto) = Ok v
                   /\ get d campo = Some v) patrones.
Proof.
  destruct (extract_loop_spec (normalize texto) patrones [] false)
    as (d & Hd & Hkeys & _ & Hall).
  - exact patrones_well_formed.
  - exact patrones_distinct.
  - exact patrones_order.
  - discriminate.
  - exists d. auto.
Qed.

End Extraction.

(** ** The records of [process_pdfs] *)

Lemma get_of_in (d : dict) (k v : str) :
  NoDup (keys d) -> In (k, v) d -> get d k = Some v.
Proof.
  induction d as [|[k' v'] d IH]; simpl; intros Hnd Hin; [contradiction|].
  inversion Hnd as [|? ? Hk Hnd']; subst.
  destruct Hin as [[= -> ->]|Hin]; [now rewrite str_eqb_refl|].
  rewrite str_eqb_neq; [auto|].
  intros ->. apply Hk. now apply (in_map fst) in Hin.
Qed.

Lemma rebuild_spec (source : dict) (ks : list str) :
  forall acc : dict,
    NoDup (keys acc ++ ks) ->
    (forall k, In k ks -> In k (keys source)) ->
    exists vs,
      fold_left
        (fun acc k => d <- acc ;; v <- getitem source k ;; Ok (setitem d k v))
        ks (Ok acc) = Ok (acc ++ vs)
      /\ keys vs = ks
      /\ Forall (fun kv => get source (fst kv) = Some (snd kv)) vs.
Proof.
  induction ks as [|k ks IH]; intros acc Hnd Hin; simpl.
  - exists []. rewrite app_nil_r. auto.
  - assert (Hk : In k (keys source)) by (apply Hin; simpl; auto).
    apply get_in_keys in Hk. unfold getitem at 2.
    destruct (get source k) as [v|] eqn:E; [|contradiction]. simpl.
    rewrite setitem_fresh
      by (apply NoDup_remove_2 in Hnd; rewrite in_app_iff in Hnd; tauto).
    destruct (IH (acc ++ [(k, v)])) as (vs & Hvs & Hkeys & Hall).
    + rewrite keys_app. simpl. now rewrite <- app_assoc.
    + intros k' Hk'. apply Hin. simpl. auto.
    + exists ((k, v) :: vs). rewrite Hvs, <- app_assoc. simpl.
      split; [reflexivity|]. split; [now f_equal|]. constructor; auto.
Qed.

Lemma same_keys_same_values (d e : dict) :
  NoDup (keys d) -> keys e = keys d ->
  Forall (fun kv => get d (fst kv) = Some (snd kv)) e -> e = d.
Proof.
  revert e; induction d as [|[k v] d IH]; intros [|[k' v'] e]; simpl;
    try discriminate; [reflexivity|].
  intros Hnd [= -> Hkeys] Hall.
  inversion Hnd as [|? ? Hk Hnd']; subst.
  inversion Hall as [|? ? Hhead Htail]; subst. simpl in Hhead.
  rewrite str_eqb_refl in Hhead. injection Hhead as ->. f_equal.
  apply IH; [assumption..|].
  rewrite Forall_forall in *. intros [k0 v0] Hin. specialize (Htail _ Hin).
  simpl in *. rewrite str_eqb_neq in Htail; [assumption|].
  intros ->. apply Hk. rewrite <- Hkeys. now apply (in_map fst) in Hin.
Qed.

Lemma filter_all {A} (f : A -> bool) (l : list A) :
  (forall x, In x l -> f x = true) -> filter f l = l.
Proof.
  induction l as [|x l IH]; simpl; intros Hl; [reflexivity|].
  rewrite Hl by auto. f_equal. auto.
Qed.

Lemma archivo_first_spec (campos : dict) (archivo : str) :
  NoDup (keys campos) -> ~ In (py "Archivo") (keys campos) ->
  archivo_first (setitem campos (py "Archivo") archivo)
  = Ok ((py "Archivo", archivo) :: campos).
Proof.
  unfold archivo_first. fold_literals. intros Hnd Hfresh.
  rewrite setitem_fresh by assumption.
  set (source := campos ++ [(lit, archivo)]).
  assert (Hks : filter (fun key => negb (str_eqb key lit)) (keys source)
                = keys campos).
  { unfold source. rewrite keys_app, filter_app. cbn [keys map fst filter].
    rewrite str_eqb_refl. cbn [negb]. rewrite app_nil_r. apply filter_all.
    intros k Hk. apply negb_true_iff, str_eqb_neq. intros ->. contradiction. }
  rewrite Hks. cbn [fold_left bind].
  assert (Ha : getitem source lit = Ok archivo).
  { unfold getitem, source. rewrite <- (setitem_fresh _ _ archivo Hfresh).
    now rewrite get_setitem_same. }
  rewrite Ha. cbn [bind setitem].
  destruct (rebuild_spec source (keys campos) [(lit, archivo)])
    as (vs & Hvs & Hkeys & Hall).
  - cbn [keys map fst app]. now constructor.
  - intros k Hk. unfold source. rewrite keys_app, in_app_iff. auto.
  - rewrite Hvs. cbn [app]. do 2 f_equal.
    apply same_keys_same_values; [assumption..|].
    rewrite Forall_forall in *. intros [k v] Hin. specialize (Hall _ Hin).
    cbn [fst snd] in *. rewrite <- Hall. unfold source.
    rewrite <- (setitem_fresh _ _ archivo Hfresh). symmetry.
    apply get_setitem_other. intros ->. apply Hfresh. rewrite <- Hkeys.
    now apply (in_map fst) in Hin.
Qed.

Section Batch.
Context {U : unicode_db} {H : host}.

Lemma archivo_not_a_field : ~ In (py "Archivo") (map fst patrones).
Proof.
  intros Hin. apply (in_map (str_eqb (py "Archivo"))) in Hin.
  rewrite str_eqb_refl in Hin. vm_compute in Hin. intuition discriminate.
Qed.

Lemma process_text_spec (archivo texto : str) (resultados : list dict) :
  exists campos,
    extract_fields texto = Ok campos
    /\ keys campos = map fst patrones
    /\ process_text archivo texto resultados
       = Ok (if is_fiscal texto
             then resultados ++ [(py "Archivo", archivo) :: campos]
             else resultados).
Proof.
  destruct (extract_fields_spec texto) as (d & Hd & Hkeys & _).
  exists d. split; [assumption|]. split; [assumption|].
  unfold process_text. destruct (is_fiscal texto); [|reflexivity].
  rewrite Hd. cbn [bind]. rewrite archivo_first_spec.
  - reflexivity.
  - rewrite Hkeys. apply patrones_distinct.
  - rewrite Hkeys. apply archivo_not_a_field.
Qed.

Lemma full_trace_length (folder_path : str) (total : nat) (archivos : list str) :
  forall i, List.length (full_trace folder_path total i archivos)
            = (2 * List.length archivos)%nat.
Proof.
  induction archivos as [|a l IH]; intros i; simpl; [reflexivity|].
  rewrite IH. lia.
Qed.

(** The loop either reads every file, and then adds the records of the
    fiscal ones in order, or stops at the first file it cannot read. *)
Lemma process_loop_spec (folder_path : str) (total : nat) (archivos : list str) :
  forall (i : nat) (resultados : list dict) (log : list event),
  exists n res,
    process_loop folder_path total i archivos resultados log
    = (res, log ++ firstn n (full_trace folder_path total i archivos))
    /\ match res with
       | Ok rs =>
           exists new,
             rs = resultados ++ new
             /\ Forall2 (is_record_of folder_path)
                  (filter (fiscal_file folder_path) archivos) new
             /\ n = (2 * List.length archivos)%nat
       | Raise e =>
           exists before archivo after,
             archivos = before ++ archivo :: after
             /\ Forall (readable folder_path) before
             /\ get_text (os_path_join folder_path archivo) = Raise e
             /\ n = (2 * List.length before + 1)%nat
       end.
Proof.
  induction archivos as [|a l IH]; intros i resultados log.
  - exists 0%nat, (Ok resultados). cbn. rewrite app_nil_r. split; [reflexivity|].
    exists []. rewrite app_nil_r. split; [reflexivity|].
    split; [constructor | reflexivity].
  - cbn [process_loop full_trace]. unfold io_bind, emit, lift.
    destruct (get_text (os_path_join folder_path a)) as [texto|e] eqn:E.
    + destruct (process_text_spec a texto resultados) as (d & Hd & Hkeys & Hp).
      rewrite Hp.
      destruct (IH (S i)
                  (if is_fiscal texto
                   then resultados ++ [(py "Archivo", a) :: d] else resultados)
                  ((log ++ [Opened (os_path_join folder_path a)])
                     ++ [SetValue i total]))
        as (n & res & Hrun & Hres).
      exists (S (S n)), res. rewrite Hrun. split.
      { cbn [firstn]. rewrite <- !app_assoc. reflexivity. }
      destruct res as [rs|e].
      * destruct Hres as (new & -> & Hrec & ->).
        cbn [filter]. unfold fiscal_file at 1. rewrite E.
        destruct (is_fiscal texto).
        -- exists (((py "Archivo", a) :: d) :: new). rewrite <- app_assoc.
           split; [reflexivity|]. split; [|simpl; lia].
           constructor; [|assumption]. exists texto, d. auto.
        -- exists new. split; [reflexivity|]. split; [assumption | simpl; lia].
      * destruct Hres as (before & archivo & after & -> & Hb & Ha & ->).
        exists (a :: before), archivo, after. split; [reflexivity|].
        split; [|split; [assumption | simpl; lia]].
        constructor; [|assumption]. now exists texto.
    + exists 1%nat, (Raise e). split; [reflexivity|].
      exists [], a, l. split; [reflexivity|]. split; [constructor|].
      split; [assumption | reflexivity].
Qed.

Lemma process_loop_readable (folder_path : str) (total : nat)
  (archivos : list str) (i : nat) (resultados : list dict) (log : list event) :
  Forall (readable folder_path) archivos ->
  exists new,
    process_loop folder_path total i archivos resultados log
    = (Ok (resultados ++ new), log ++ full_trace folder_path total i archivos)
    /\ Forall2 (is_record_of folder_path)
         (filter (fiscal_file folder_path) archivos) new.
Proof.
  intros Hr.
  destruct (process_loop_spec folder_path total archivos i resultados log)
    as (n & [rs|e] & Hrun & Hres).
  - destruct Hres as (new & -> & Hrec & ->). exists new. rewrite Hrun.
    rewrite <- (full_trace_length folder_path total archivos i), firstn_all. auto.
  - destruct Hres as (before & archivo & after & -> & _ & Ha & _).
    rewrite Forall_forall in Hr.
    destruct (Hr archivo) as [texto Ht]; [|congruence].
    rewrite in_app_iff. simpl. auto.
Qed.

Lemma process_loop_app (folder_path : str) (total : nat) (l1 l2 : list str) :
  forall (i : nat) (resultados : list dict) (log : list event),
    process_loop folder_path total i (l1 ++ l2) resultados log
    = io_bind (process_loop folder_path total i l1 resultados)
        (fun rs => process_loop folder_path total (i + List.length l1) l2 rs) log.
Proof.
  induction l1 as [|a l1 IH]; intros i resultados log.
  - cbn. now rewrite Nat.add_0_r.
  - cbn [app process_loop]. unfold io_bind, emit, lift.
    destruct (get_text (os_path_join folder_path a)); [|reflexivity].
    destruct (process_text a a0 resultados); [|reflexivity].
    rewrite IH. unfold io_bind. cbn [List.length].
    now rewrite Nat.add_succ_r.
Qed.

Lemma record_shape (folder_path archivo : str) (r : dict) :
  is_record_of folder_path archivo r ->
  keys r = py "Archivo" :: map fst patrones
  /\ get r (py "Archivo") = Some archivo.
Proof.
  intros (texto & campos & _ & Hc & ->).
  destruct (extract_fields_spec texto) as (d & Hd & Hkeys & _).
  assert (d = campos) by congruence. subst d.
  cbn [keys map fst get]. fold (keys campos). rewrite Hkeys, str_eqb_refl. auto.
Qed.

Lemma records_shape (folder_path : str) (archivos : list str) (rs : list dict) :
  Forall2 (is_record_of folder_path) archivos rs ->
  Forall (fun r => keys r = py "Archivo" :: map fst patrones) rs
  /\ map (fun r => get r (py "Archivo")) rs = map Some archivos.
Proof.
  induction 1 as [|a r l rs Hr Hrest [IH1 IH2]]; [split; constructor|].
  destruct (record_shape _ _ _ Hr) as [Hk Hg]. split.
  - now constructor.
  - cbn [map]. now rewrite Hg, IH2.
Qed.

End Batch.

(** ** The claims on [extract_fields] *)

Section Claims.
Context {U : unicode_db} {H : host}.

Lemma stored_value_inv (d : dict) (campo : str) (patron : string)
  (texto v : str) :
  well_formed patron = true ->
  stored_value d campo patron texto = Ok v ->
  (re_search patron texto = Ok None /\ v = py "N/A")
  \/ exists m raw,
       re_search patron texto = Ok (Some m)
       /\ field_text m = Ok raw
       /\ (trimmed raw \/ joined raw)
       /\ ((campo <> py "Fecha y lugar de emisión" /\ v = raw)
           \/ (campo = py "Fecha y lugar de emisión"
               /\ exists rfc, get d (py "RFC") = Some rfc
                              /\ v = replace raw rfc [])).
Proof.
  intros Hw. unfold stored_value.
  destruct (re_search_ok patron texto Hw) as [Hs | (m & raw & Hs & Hraw & Hshape)];
    intros Hv; rewrite Hs in Hv; cbn [bind] in Hv.
  - injection Hv as <-. now left.
  - rewrite Hraw in Hv. cbn [bind] in Hv. right. exists m, raw.
    do 3 (split; [assumption|]).
    destruct (str_eqb campo (py "Fecha y lugar de emisión")) eqn:E.
    + apply str_eqb_eq in E. right. split; [assumption|].
      unfold getitem in Hv. destruct (get d (py "RFC")) as [rfc|]; [|discriminate].
      injection Hv as <-. now exists rfc.
    + left. split; [|congruence]. intros ->. now rewrite str_eqb_refl in E.
Qed.

Lemma field_value_stored (d : dict) (campo : str) (patron : string)
  (texto v : str) :
  campo <> py "Fecha y lugar de emisión" ->
  stored_value d campo patron texto = Ok v -> field_value patron texto = Ok v.
Proof.
  intros Hc. unfold stored_value, field_value.
  destruct (re_search patron texto) as [[m|]|]; cbn [bind]; try trivial.
  destruct (field_text m); cbn [bind]; [|trivial].
  now rewrite (str_eqb_neq _ _ Hc).
Qed.

Lemma field_text_shape (n : nat) (m : marks) :
  (n = 1 \/ n = 2)%nat ->
  (forall g, (1 <= g <= n)%nat -> has g m) ->
  exists v, field_text {| m_ngroups := n; m_marks := m |} = Ok v
            /\ ((n = 1%nat /\ trimmed v) \/ (n = 2%nat /\ joined v)).
Proof.
  intros Hn Hm. unfold field_text, group, has in *. simpl.
  destruct Hn as [-> | ->]; simpl.
  - destruct (lookup_mark m 1) as [g1|] eqn:E1; [|now destruct (Hm 1%nat ltac:(lia))].
    simpl. eexists. split; [reflexivity|]. left.
    split; [reflexivity | apply strip_trimmed].
  - destruct (lookup_mark m 1) as [g1|] eqn:E1; [|now destruct (Hm 1%nat ltac:(lia))].
    destruct (lookup_mark m 2) as [g2|] eqn:E2; [|now destruct (Hm 2%nat ltac:(lia))].
    simpl. eexists. split; [reflexivity|]. right. split; [reflexivity|].
    exists (strip g1), (strip g2). auto using strip_trimmed.
Qed.

Lemma re_search_shape (patron : string) (texto : str) :
  well_formed patron = true ->
  re_search patron texto = Ok None
  \/ exists m v,
       re_search patron texto = Ok (Some m)
       /\ field_text m = Ok v
       /\ ((groups_of patron = 1%nat /\ trimmed v)
           \/ (groups_of patron = 2%nat /\ joined v)).
Proof.
  intros Hw. destruct (well_formed_inv _ Hw) as (p & Hp & Hn & Hg).
  unfold re_search, groups_of. rewrite Hp.
  destruct (search_from (p_tree p) texto) as [m|] eqn:E; [right | now left].
  destruct (field_text_shape (p_ngroups p) m Hn) as (v & Hv & Hs).
  - intros g Hg'. eapply search_sure_groups; eauto.
  - eauto.
Qed.

Lemma fecha_has_two_groups :
  Forall (fun '(campo, patron) =>
            campo = py "Fecha y lugar de emisión" -> groups_of patron = 2%nat)
    patrones.
Proof.
  assert (Hb : forallb (fun rule =>
                 if str_eqb (fst rule) (py "Fecha y lugar de emisión")
                 then Nat.eqb (groups_of (snd rule)) 2 else true) patrones = true)
    by (vm_compute; reflexivity).
  rewrite forallb_forall in Hb. apply Forall_forall.
  intros [campo patron] Hrule Hc. specialize (Hb _ Hrule). cbn [fst snd] in Hb.
  rewrite (proj2 (str_eqb_eq _ _) Hc) in Hb. now apply Nat.eqb_eq.
Qed.

(** C1, amended. For every text, [extract_fields] returns a map whose keys
    are exactly the sixteen names of the catalog, in its order. The rules of
    'Nombre Municipio o Demarcación Territorial', 'Entre Calle' and
    'Fecha y lugar de emisión' have two groups, the others one. The value of
    a rule of one group is the sentinel "N/A" or a possibly empty string
    without leading or trailing whitespace; the value of a rule of two
    groups is "N/A" or two such strings joined by one space; the value of
    the issuance date is "N/A" or such a joined string with the occurrences
    of the RFC deleted. *)
Theorem extract_fields_total (texto : str) :
  exists d,
    extract_fields texto = Ok d
    /\ keys d = map fst patrones
    /\ List.length (keys d) = 16%nat
    /\ NoDup (keys d)
    /\ map (fun rule => groups_of (snd rule)) patrones
       = [1; 1; 1; 1; 1; 1; 1; 1; 1; 1; 1; 2; 1; 2; 1; 2]%nat
    /\ Forall (field_result_shape d) patrones.
Proof.
  destruct (extract_fields_spec texto) as (d & Hd & Hkeys & Hall).
  exists d. split; [assumption|]. split; [assumption|].
  assert (Hnd : NoDup (keys d)) by (rewrite Hkeys; apply patrones_distinct).
  split; [now rewrite Hkeys|]. split; [assumption|].
  split; [vm_compute; reflexivity|].
  apply Forall_forall. intros [campo patron] Hrule.
  pose proof (proj1 (Forall_forall _ _) patrones_well_formed _ Hrule) as Hw.
  pose proof (proj1 (Forall_forall _ _) fecha_has_two_groups _ Hrule) as Htwo.
  destruct (proj1 (Forall_forall _ _) Hall _ Hrule) as (v & Hv & Hget).
  cbn beta iota in Hw, Htwo, Hv, Hget.
  unfold field_result_shape. exists v. split; [exact Hget|].
  revert Hv. unfold stored_value.
  destruct (re_search_shape patron (normalize texto) Hw)
    as [Hs | (m & raw & Hs & Hraw & Hshape)]; rewrite Hs; cbn [bind].
  - intros [= <-]. now left.
  - rewrite Hraw. cbn [bind].
    destruct (str_eqb campo (py "Fecha y lugar de emisión")) eqn:E.
    + apply str_eqb_eq in E. specialize (Htwo E).
      unfold getitem. destruct (get d (py "RFC")) as [rfc|] eqn:Hrfc;
        cbn [bind]; [|discriminate].
      intros [= <-]. do 3 right.
      destruct Hshape as [[Hone _] | [_ Hj]]; [congruence|].
      split; [exact Htwo|]. split; [exact E|]. exists raw, rfc.
      split; [reflexivity|]. split; [exact Hj | reflexivity].
    + intros [= <-]. right.
      assert (Hc : campo <> py "Fecha y lugar de emisión").
      { intros Hc. rewrite (proj2 (str_eqb_eq _ _) Hc) in E. discriminate. }
      destruct Hshape as [[Hone Ht] | [Htwo' Hj]].
      * left. split; assumption.
      * right. left. split; [exact Htwo'|]. split; assumption.
Qed.

(** C8. For every text and every rule of the catalog: a pattern that does
    not match gives "N/A", and the value stored for any rule other than the
    issuance date is what the rule gives from its own pattern and the
    cleaned text, whatever the other rules find. *)
Theorem field_failures_isolated (texto : str) :
  exists d,
    extract_fields texto = Ok d
    /\ Forall (fun '(campo, patron) =>
                 (re_search patron (normalize texto) = Ok None ->
                  get d campo = Some (py "N/A"))
                 /\ (campo <> py "Fecha y lugar de emisión" ->
                     exists v, field_value patron (normalize texto) = Ok v
                               /\ get d campo = Some v))
         patrones.
Proof.
  destruct (extract_fields_spec texto) as (d & Hd & Hkeys & Hall).
  exists d. split; [assumption|].
  apply Forall_forall. intros [campo patron] Hrule.
  pose proof (proj1 (Forall_forall _ _) patrones_well_formed _ Hrule) as Hw.
  destruct (proj1 (Forall_forall _ _) Hall _ Hrule) as (v & Hv & Hget).
  cbn [fst snd] in *. split.
  - intros Hnone. rewrite Hget. f_equal.
    unfold stored_value in Hv. rewrite Hnone in Hv. cbn [bind] in Hv. congruence.
  - intros Hc. exists v. split; [|assumption].
    eapply field_value_stored; eassumption.
Qed.

Lemma patrones_rfc : In (py "RFC", "RFC:\n([\w]*)?"%string) patrones.
Proof. apply (nth_In patrones ([], EmptyString) (n := 2)). cbn. lia. Qed.

Lemma patrones_fecha :
  In (py "Fecha y lugar de emisión",
      "Lugar y Fecha de Emisión\n*([^\n]*)\n*([^\n]*)?"%string) patrones.
Proof. apply (nth_In patrones ([], EmptyString) (n := 15)). cbn. lia. Qed.

(** C3, amended. For every text, no error is raised; when the issuance-date
    pattern does not match, the field is "N/A"; when it matches, the field is
    the extracted text in which every occurrence of the value stored under
    'RFC' (were it "N/A"), found left to right without overlap, is deleted;
    it is the extracted text itself exactly when that value is the empty
    string or does not occur in it. *)
Theorem fecha_without_rfc (texto : str) :
  exists d rfc fecha coincidencia,
    extract_fields texto = Ok d
    /\ get d (py "RFC") = Some rfc
    /\ get d (py "Fecha y lugar de emisión") = Some fecha
    /\ re_search "Lugar y Fecha de Emisión\n*([^\n]*)\n*([^\n]*)?"
         (normalize texto) = Ok coincidencia
    /\ match coincidencia with
       | None => fecha = py "N/A"
       | Some m =>
           exists raw,
             field_text m = Ok raw
             /\ fecha = replace raw rfc []
             /\ (fecha = raw <-> rfc = [] \/ contains raw rfc = false)
       end.
Proof.
  destruct (extract_fields_spec texto) as (d & Hd & Hkeys & Hall).
  rewrite Forall_forall in Hall.
  destruct (Hall _ patrones_rfc) as (rfc & _ & Hrfc).
  destruct (Hall _ patrones_fecha) as (fecha & Hv & Hfecha).
  pose proof (proj1 (Forall_forall _ _) patrones_well_formed _ patrones_fecha) as Hw.
  cbn beta iota in Hv, Hfecha, Hrfc, Hw.
  exists d, rfc, fecha.
  destruct (stored_value_inv d _ _ _ fecha Hw Hv)
    as [[Hs ->] | (m & raw & Hs & Hraw & _ & [[Hc _] | [_ (rfc' & Hrfc' & ->)]])].
  - exists None. auto.
  - now destruct Hc.
  - exists (Some m). assert (rfc' = rfc) by congruence. subst rfc'.
    repeat (split; [assumption|]). exists raw.
    split; [assumption|]. split; [reflexivity|]. apply replace_unchanged_iff.
Qed.

(** C9. For every text, the turn of the loop for 'Fecha y lugar de emisión'
    starts, without an error before it, from a result map that holds the key
    'RFC': the rules before it, 'RFC' among them, have been processed, the
    rest of [extract_fields] is that one turn, and the lookup of 'RFC' in it
    succeeds, whether or not the RFC pattern matched. *)
Theorem rfc_present_before_fecha (texto : str) :
  exists before patron resultado rfc,
    patrones = before ++ [(py "Fecha y lugar de emisión", patron)]
    /\ In (py "RFC") (map fst before)
    /\ extract_loop (normalize texto) before [] = Ok resultado
    /\ get resultado (py "RFC") = Some rfc
    /\ extract_fields texto
       = extract_loop (normalize texto)
           [(py "Fecha y lugar de emisión", patron)] resultado
    /\ (forall v,
          getitem (setitem resultado (py "Fecha y lugar de emisión") v)
            (py "RFC") = Ok rfc)
    /\ exists d, extract_fields texto = Ok d.
Proof.
  exists (firstn 15 patrones),
    "Lugar y Fecha de Emisión\n*([^\n]*)\n*([^\n]*)?"%string.
  destruct (extract_loop_spec (normalize texto) (firstn 15 patrones) [] false)
    as (resultado & Hr & Hkeys & _ & _).
  { cbn [firstn patrones]. repeat constructor. }
  { apply distinct_NoDup. vm_compute. reflexivity. }
  { vm_compute. reflexivity. }
  { discriminate. }
  assert (Hin : In (py "RFC") (map fst (firstn 15 patrones))).
  { apply (in_map fst _ (py "RFC", "RFC:\n([\w]*)?"%string)).
    apply (nth_In (firstn 15 patrones) ([], EmptyString) (n := 2)). cbn. lia. }
  assert (Hget : get resultado (py "RFC") <> None).
  { apply get_in_keys. rewrite Hkeys. exact Hin. }
  destruct (get resultado (py "RFC")) as [rfc|] eqn:E; [|contradiction].
  exists resultado, rfc. split; [reflexivity|].
  split; [exact Hin|]. split; [exact Hr|]. split; [exact E|]. split; [|split].
  - unfold extract_fields.
    change patrones
      with (firstn 15 patrones
              ++ [(py "Fecha y lugar de emisión",
                   "Lugar y Fecha de Emisión\n*([^\n]*)\n*([^\n]*)?"%string)]).
    now rewrite extract_loop_app, Hr.
  - intros v. unfold getitem.
    rewrite get_setitem_other by (vm_compute; discriminate). now rewrite E.
  - destruct (extract_fields_spec texto) as (d & Hd & _). now exists d.
Qed.

(** ** The claims on [process_pdfs] *)

Lemma full_trace_events (folder_path : str) (total : nat) (archivos : list str) :
  forall i,
    Forall (fun ev =>
              match ev with
              | Opened ruta =>
                  exists f, In f archivos /\ ruta = os_path_join folder_path f
              | SetValue j t =>
                  t = total /\ (i <= j < i + List.length archivos)%nat
              | Warning => False
              end)
      (full_trace folder_path total i archivos).
Proof.
  induction archivos as [|a l IH]; intros i; cbn [full_trace]; [constructor|].
  constructor; [exists a; simpl; auto|].
  constructor; [simpl; lia|].
  eapply Forall_impl; [|apply (IH (S i))].
  intros [|ruta|j t]; [trivial| |].
  - intros (f & Hf & ->). exists f. simpl. auto.
  - simpl. lia.
Qed.

Lemma Forall_prefix {A} (P : A -> Prop) (n : nat) (l : list A) :
  Forall P l -> Forall P (firstn n l).
Proof.
  intros Hl. rewrite <- (firstn_skipn n l) in Hl.
  now apply Forall_app in Hl.
Qed.

Lemma records_names (folder_path : str) (archivos : list str) (rs : list dict) :
  Forall2 (is_record_of folder_path) archivos rs ->
  Forall (fun r => exists a, In a archivos /\ get r (py "Archivo") = Some a) rs.
Proof.
  induction 1 as [|a r l rs Hr Hrest IH]; constructor.
  - exists a. split; [simpl; auto|]. apply (record_shape _ _ _ Hr).
  - eapply Forall_impl; [|exact IH].
    intros r' (a' & Ha' & Hg). exists a'. simpl. auto.
Qed.

(** C7. When every PDF of the folder can be read, [process_pdfs] reaches
    the end of its loop; if the folder holds a PDF, its collection has one
    record for each file whose text is fiscal and no other, in the order of
    the files; every record has the keys 'Archivo', then the names of the
    catalog in its order, and holds the name of its file under 'Archivo'. *)
Theorem records_of_fiscal_documents (folder_path : str) :
  Forall (readable folder_path) (archivos_pdf folder_path) ->
  exists outcome trace,
    process_pdfs folder_path [] = (Ok outcome, trace)
    /\ match outcome with
       | None => archivos_pdf folder_path = []
       | Some rs =>
           Forall (fun r => keys r = py "Archivo" :: map fst patrones) rs
           /\ map (fun r => get r (py "Archivo")) rs
              = map Some (filter (fiscal_file folder_path)
                            (archivos_pdf folder_path))
           /\ Forall2 (is_record_of folder_path)
                (filter (fiscal_file folder_path) (archivos_pdf folder_path)) rs
       end.
Proof.
  intros Hr. unfold process_pdfs.
  destruct (Nat.eqb (List.length (archivos_pdf folder_path)) 0) eqn:E.
  - exists None, [Warning]. split; [reflexivity|].
    apply Nat.eqb_eq in E. now apply length_zero_iff_nil.
  - destruct (process_loop_readable folder_path
                (List.length (archivos_pdf folder_path))
                (archivos_pdf folder_path) 1 [] [] Hr) as (new & Hrun & Hrec).
    unfold io_bind, ret. rewrite Hrun. cbn [app].
    exists (Some new), (full_trace folder_path
                          (List.length (archivos_pdf folder_path)) 1
                          (archivos_pdf folder_path)).
    split; [reflexivity|].
    destruct (records_shape _ _ _ Hrec) as [Hk Hg]. auto.
Qed.

(** C6, amended. When a PDF of the folder cannot be read and those before
    it can, the loop stops there: [process_pdfs] raises the error of that
    read, hands no collection to the export, and the files after it are not
    opened. *)
Theorem failed_read_aborts_batch (folder_path : str) (before : list str)
  (archivo : str) (after : list str) (e : exn) :
  archivos_pdf folder_path = before ++ archivo :: after ->
  Forall (readable folder_path) before ->
  get_text (os_path_join folder_path archivo) = Raise e ->
  process_pdfs folder_path []
  = (Raise e,
     full_trace folder_path (List.length (archivos_pdf folder_path)) 1 before
       ++ [Opened (os_path_join folder_path archivo)]).
Proof.
  intros Hl Hr Hfail. unfold process_pdfs.
  set (total := List.length (archivos_pdf folder_path)).
  assert (E : Nat.eqb total 0 = false).
  { apply Nat.eqb_neq. unfold total. rewrite Hl, length_app. simpl. lia. }
  rewrite E, Hl. unfold io_bind at 1. rewrite process_loop_app.
  destruct (process_loop_readable folder_path total before 1 [] [] Hr)
    as (new & Hrun & _).
  unfold io_bind at 1. rewrite Hrun.
  cbn [process_loop app]. unfold io_bind, emit, lift. now rewrite Hfail.
Qed.

(** C10. The batch is made of the entries of the folder whose lowered name
    ends with ".pdf", and of nothing else: every file [process_pdfs] opens
    is one of them, every record carries the name of one of them, the total
    of every progress report is their number, and the warning is given only
    when there is none. *)
Theorem only_pdf_files_are_candidates (folder_path : str) :
  let is_pdf := fun f => endswith (lower f) (py ".pdf") in
  let candidates := filter is_pdf (os_listdir folder_path) in
  let run := process_pdfs folder_path [] in
  Forall (fun ev =>
            match ev with
            | Opened ruta =>
                exists f, In f (os_listdir folder_path) /\ is_pdf f = true
                          /\ ruta = os_path_join folder_path f
            | SetValue i total =>
                total = List.length candidates /\ (1 <= i <= total)%nat
            | Warning => candidates = []
            end) (snd run)
  /\ match fst run with
     | Ok (Some rs) =>
         Forall (fun r => exists f, get r (py "Archivo") = Some f
                                    /\ In f (os_listdir folder_path)
                                    /\ is_pdf f = true) rs
     | _ => True
     end.
Proof.
  intros is_pdf candidates run. subst run. unfold process_pdfs.
  change (archivos_pdf folder_path) with candidates.
  destruct (Nat.eqb (List.length candidates) 0) eqn:E.
  - cbn. split; [|trivial]. constructor; [|constructor].
    apply Nat.eqb_eq in E. now apply length_zero_iff_nil.
  - destruct (process_loop_spec folder_path (List.length candidates)
                candidates 1 [] []) as (n & res & Hrun & Hres).
    unfold io_bind, ret. rewrite Hrun. cbn [app]. split.
    + destruct res; cbn [snd]; apply Forall_prefix;
        (eapply Forall_impl; [|apply full_trace_events]);
        (intros [|ruta|j t]; [contradiction| |]);
        try (intros (f & Hf & ->); apply filter_In in Hf as [Hf1 Hf2];
             exists f; auto);
        lia.
    + destruct res as [rs|e]; cbn [fst]; [|trivial].
      destruct Hres as (new & -> & Hrec & _). cbn [app].
      eapply Forall_impl; [|apply (records_names _ _ _ Hrec)].
      intros r (a & Ha & Hg). exists a. split; [assumption|].
      apply filter_In in Ha as [Ha _]. now apply filter_In in Ha.
Qed.

End Claims.

(** ** Examples, counterexamples and witnesses

    The runs below use the Latin-1 tables and the two example folders. *)

Example py_literal : py "ó\n" = [243; 10] /\ utf8 "\n" = [92; 110].
Proof. split; reflexivity. Qed.

Example string_methods :
  split (py "a--b--c") (py "--") = [py "a"; py "b"; py "c"]
  /\ split (py "abc") (py "--") = [py "abc"]
  /\ split [] (py "--") = [[]]
  /\ replace (py "AABB") (py "AB") [] = py "AB"
  /\ replace (py "abc") [] (py "-") = py "-a-b-c-"
  /\ strip (py " \n x y \n") = py "x y".
Proof. repeat split; reflexivity. Qed.

Example compile_curp :
  re_compile "CURP:\n([\w]*)?"
  = Some {| p_tree :=
              Seq (One (ITEM (LITERAL 67))) (Seq (One (ITEM (LITERAL 85)))
              (Seq (One (ITEM (LITERAL 82))) (Seq (One (ITEM (LITERAL 80)))
              (Seq (One (ITEM (LITERAL 58))) (Seq (One (ITEM (LITERAL 10)))
              (Seq (Optional (Subpattern 1
                      (Seq (Repeat true (IN false [CATEGORY CATEGORY_WORD]))
                         Empty)))
                 Empty))))));
            p_ngroups := 1 |}.
Proof. reflexivity. Qed.

(** A well-formed block gives its CURP. *)
Example curp_extracted :
  exists d,
    @extract_fields latin1
      (py "CONSTANCIA DE SITUACIÓN FISCAL\nCURP:\nABCD010101HDFRRL09\nRFC:\n")
    = Ok d
    /\ get d (py "CURP") = Some (py "ABCD010101HDFRRL09").
Proof. eexists. split; vm_compute; reflexivity. Qed.

(** C1 fails as stated: a matched field can be the empty string, and a
    two-group field can end with a space. *)
Lemma extract_fields_value_empty_or_untrimmed :
  (exists d,
     @extract_fields latin1 (py "CURP:\n") = Ok d
     /\ get d (py "CURP") = Some [])
  /\ (exists d,
        @extract_fields latin1 (py "Lugar y Fecha de Emisión\nhoy") = Ok d
        /\ get d (py "Fecha y lugar de emisión") = Some (py "hoy ")).
Proof. split; eexists; split; vm_compute; reflexivity. Qed.

(** C3 fails as stated. On the first text the RFC is "AB", the issuance
    date matches "AABB " and the stored value "AB " still holds the RFC; on
    the second the RFC is "N/A" and the date "N/A 2024 " is stored as
    " 2024 ". *)
Lemma fecha_keeps_rfc_and_loses_sentinel :
  (exists d,
     @extract_fields latin1
       (py "RFC:\nAB\nLugar y Fecha de Emisión\nAABB") = Ok d
     /\ get d (py "RFC") = Some (py "AB")
     /\ @field_value latin1 "Lugar y Fecha de Emisión\n*([^\n]*)\n*([^\n]*)?"
          (normalize (py "RFC:\nAB\nLugar y Fecha de Emisión\nAABB"))
        = Ok (py "AABB ")
     /\ get d (py "Fecha y lugar de emisión") = Some (py "AB ")
     /\ contains (py "AB ") (py "AB") = true)
  /\ (exists d,
        @extract_fields latin1 (py "Lugar y Fecha de Emisión\nN/A 2024") = Ok d
        /\ get d (py "RFC") = Some (py "N/A")
        /\ @field_value latin1 "Lugar y Fecha de Emisión\n*([^\n]*)\n*([^\n]*)?"
             (normalize (py "Lugar y Fecha de Emisión\nN/A 2024"))
           = Ok (py "N/A 2024 ")
        /\ get d (py "Fecha y lugar de emisión") = Some (py " 2024 ")).
Proof.
  split; eexists.
  - split; [vm_compute; reflexivity|]. split; [vm_compute; reflexivity|].
    split; [vm_compute; reflexivity|]. split; vm_compute; reflexivity.
  - split; [vm_compute; reflexivity|]. split; [vm_compute; reflexivity|].
    split; vm_compute; reflexivity.
Qed.

(** C5 fails as stated: deleting a footer can put a footer together. *)
Lemma normalize_not_idempotent :
  normalize (py "PágPágina  [2] de [2]ina  [2] de [2]")
  = py "Página  [2] de [2]"
  /\ normalize (normalize (py "PágPágina  [2] de [2]ina  [2] de [2]")) = [].
Proof. split; vm_compute; reflexivity. Qed.

Lemma normalize_idempotent_witness :
  existsb (contains (normalize (py "RFC:\nAB Página  [2] de [3]\nActividades Económicas:\nx")))
    boilerplate = false
  /\ normalize (normalize (py "RFC:\nAB Página  [2] de [3]\nActividades Económicas:\nx"))
     = normalize (py "RFC:\nAB Página  [2] de [3]\nActividades Económicas:\nx").
Proof.
  assert (Hc : existsb (contains (normalize (py "RFC:\nAB Página  [2] de [3]\nActividades Económicas:\nx")))
                 boilerplate = false) by (vm_compute; reflexivity).
  split; [exact Hc|].
  exact (normalize_idempotent_on_clean_output _ Hc).
Defined.

(** C6 fails as stated: [c.pdf] cannot be read, the exception leaves
    [process_pdfs], [b.pdf] after it is never opened and no collection is
    returned. *)
Lemma corrupt_file_aborts_batch :
  @process_pdfs latin1 folder_with_corrupt_file (py "d") []
  = (Raise (FileDataError (py "d/c.pdf")),
     [Opened (py "d/a.PDF"); SetValue 1 3; Opened (py "d/c.pdf")]).
Proof. vm_compute. reflexivity. Qed.

Lemma failed_read_witness :
  @archivos_pdf latin1 folder_with_corrupt_file (py "d")
  = [py "a.PDF"] ++ py "c.pdf" :: [py "b.pdf"]
  /\ Forall (@readable folder_with_corrupt_file (py "d")) [py "a.PDF"]
  /\ @get_text folder_with_corrupt_file
       (@os_path_join folder_with_corrupt_file (py "d") (py "c.pdf"))
     = Raise (FileDataError (py "d/c.pdf"))
  /\ @process_pdfs latin1 folder_with_corrupt_file (py "d") []
     = (Raise (FileDataError (py "d/c.pdf")),
        @full_trace folder_with_corrupt_file (py "d")
          (List.length (@archivos_pdf latin1 folder_with_corrupt_file (py "d")))
          1 [py "a.PDF"]
        ++ [Opened (@os_path_join folder_with_corrupt_file (py "d") (py "c.pdf"))]).
Proof.
  assert (Hl : @archivos_pdf latin1 folder_with_corrupt_file (py "d")
               = [py "a.PDF"] ++ py "c.pdf" :: [py "b.pdf"])
    by (vm_compute; reflexivity).
  assert (Hr : Forall (@readable folder_with_corrupt_file (py "d")) [py "a.PDF"]).
  { constructor; [|constructor]. eexists. vm_compute. reflexivity. }
  assert (Hf : @get_text folder_with_corrupt_file
                 (@os_path_join folder_with_corrupt_file (py "d") (py "c.pdf"))
               = Raise (FileDataError (py "d/c.pdf")))
    by (vm_compute; reflexivity).
  split; [exact Hl|]. split; [exact Hr|]. split; [exact Hf|].
  exact (@failed_read_aborts_batch latin1 folder_with_corrupt_file (py "d")
           [py "a.PDF"] (py "c.pdf") [py "b.pdf"]
           (FileDataError (py "d/c.pdf")) Hl Hr Hf).
Defined.

Lemma records_witness :
  Forall (@readable folder_with_two_fiscal (py "d"))
    (@archivos_pdf latin1 folder_with_two_fiscal (py "d"))
  /\ exists outcome trace,
       @process_pdfs latin1 folder_with_two_fiscal (py "d") [] = (Ok outcome, trace)
       /\ match outcome with
          | None => @archivos_pdf latin1 folder_with_two_fiscal (py "d") = []
          | Some rs =>
              Forall (fun r => keys r = py "Archivo" :: map fst patrones) rs
              /\ map (fun r => get r (py "Archivo")) rs
                 = map Some (filter (@fiscal_file folder_with_two_fiscal (py "d"))
                               (@archivos_pdf latin1 folder_with_two_fiscal (py "d")))
              /\ Forall2 (@is_record_of latin1 folder_with_two_fiscal (py "d"))
                   (filter (@fiscal_file folder_with_two_fiscal (py "d"))
                      (@archivos_pdf latin1 folder_with_two_fiscal (py "d"))) rs
          end.
Proof.
  assert (Hr : Forall (@readable folder_with_two_fiscal (py "d"))
                 (@archivos_pdf latin1 folder_with_two_fiscal (py "d"))).
  { change (@archivos_pdf latin1 folder_with_two_fiscal (py "d"))
      with [py "uno.pdf"; py "otro.pdf"; py "dos.PDF"].
    constructor; [eexists; vm_compute; reflexivity|].
    constructor; [eexists; vm_compute; reflexivity|].
    constructor; [eexists; vm_compute; reflexivity | constructor]. }
  split; [exact Hr|].
  exact (@records_of_fiscal_documents latin1 folder_with_two_fiscal (py "d") Hr).
Defined.

(** The two fiscal files of the second folder give two records, in order. *)
Example two_fiscal_documents :
  exists r1 r2 trace,
    @process_pdfs latin1 folder_with_two_fiscal (py "d") []
    = (Ok (Some [r1; r2]), trace)
    /\ keys r1 = keys r2
    /\ get r1 (py "Archivo") = Some (py "uno.pdf")
    /\ get r2 (py "Archivo") = Some (py "dos.PDF")
    /\ get r1 (py "RFC") = Some (py "XAXX010101000").
Proof.
  do 3 eexists.
  split; [vm_compute; reflexivity|]. split; [vm_compute; reflexivity|].
  split; [vm_compute; reflexivity|]. split; vm_compute; reflexivity.
Qed.

(** ** Patterns that begin with a label: where they match *)

Lemma take_drop_while (p : char -> bool) (s : str) :
  take_while p s ++ drop_while p s = s.
Proof.
  induction s as [|c s IH]; cbn [take_while drop_while]; [reflexivity|].
  destruct (p c); [cbn [app]; now f_equal | reflexivity].
Qed.

Lemma drop_while_length (p : char -> bool) (s : str) :
  (List.length (drop_while p s) <= List.length s)%nat.
Proof.
  induction s as [|c s IH]; cbn [drop_while]; [lia|].
  destruct (p c); cbn [List.length]; lia.
Qed.

Lemma span_drop_while (p : char -> bool) (s : str) :
  span s (drop_while p s) = take_while p s.
Proof.
  unfold span. induction s as [|c s IH]; cbn [take_while drop_while]; [reflexivity|].
  destruct (p c).
  - pose proof (drop_while_length p s) as Hl. cbn [List.length].
    replace (S (List.length s) - List.length (drop_while p s))%nat
      with (S (List.length s - List.length (drop_while p s))) by lia.
    cbn [firstn]. now f_equal.
  - now rewrite Nat.sub_diag.
Qed.

Lemma take_while_ext (p q : char -> bool) (s : str) :
  (forall c, p c = q c) -> take_while p s = take_while q s.
Proof.
  intros Hpq. induction s as [|c s IH]; cbn [take_while]; [reflexivity|].
  rewrite Hpq, IH. reflexivity.
Qed.

Lemma drop_while_ext (p q : char -> bool) (s : str) :
  (forall c, p c = q c) -> drop_while p s = drop_while q s.
Proof.
  intros Hpq. induction s as [|c s IH]; cbn [drop_while]; [reflexivity|].
  rewrite Hpq, IH. reflexivity.
Qed.

Lemma find_startswith (s sub : str) :
  startswith s sub = true -> find s sub = Some 0%nat.
Proof. destruct s; cbn [find]; intros ->; reflexivity. Qed.

Section GreedyLemmas.
Context {U : unicode_db}.

Lemma repeat_max_total {A} (p : char -> bool) (k : str -> option A) (s : str) :
  (forall s', k s' <> None) -> repeat_max p s k = k (drop_while p s).
Proof.
  intros Hk. induction s as [|c s IH]; cbn [repeat_max drop_while]; [reflexivity|].
  destruct (p c); [|reflexivity].
  rewrite IH. destruct (k (drop_while p s)) eqn:E; [reflexivity|].
  now destruct (Hk (drop_while p s)).
Qed.

(** An all-greedy pattern never backtracks when what follows cannot fail. *)
Lemma exec_all_greedy (r : regex) :
  all_greedy r = true ->
  forall k : str -> marks -> option marks,
    (forall s m, k s m <> None) ->
    forall s m,
      exec r s m k = k (fst (greedy_run r s m)) (snd (greedy_run r s m)).
Proof.
  induction r as [|cs|a IHa b IHb|greedy cs|g body IH|body IH];
    cbn [all_greedy]; intros Hg k Hk s m; cbn [exec greedy_run].
  - reflexivity.
  - discriminate.
  - apply andb_true_iff in Hg as [Ha Hb].
    rewrite (IHa Ha).
    + destruct (greedy_run a s m) as [s' m']. cbn [fst snd]. now apply IHb.
    + intros s' m'. rewrite (IHb Hb k Hk). apply Hk.
  - subst greedy. rewrite repeat_max_total; [reflexivity|].
    intros s'. apply Hk.
  - rewrite (IH Hg).
    + destruct (greedy_run body s m) as [s' m']. reflexivity.
    + intros s' m'. apply Hk.
  - rewrite (IH Hg k Hk).
    destruct (k (fst (greedy_run body s m)) (snd (greedy_run body s m))) eqn:E;
      [reflexivity|].
    now destruct (Hk _ _ E).
Qed.

Lemma exec_literal_then (l : str) (r : regex) :
  forall s m k,
    exec (literal_then l r) s m k
    = if startswith s l then exec r (skipn (List.length l) s) m k else None.
Proof.
  induction l as [|c l IH]; intros s m k; [reflexivity|].
  cbn [literal_then fold_right exec]. fold (literal_then l r).
  destruct s as [|c' s]; [reflexivity|].
  cbn [charset_matches item_matches startswith List.length skipn].
  destruct (c' =? c); [apply IH | reflexivity].
Qed.

(** A label followed by an all-greedy pattern matches at the first
    occurrence of the label, and nowhere when the label does not occur. *)
Lemma search_literal_then (l : str) (r : regex) (s : str) :
  all_greedy r = true ->
  search_from (literal_then l r) s
  = match find s l with
    | None => None
    | Some i => Some (snd (greedy_run r (skipn (i + List.length l) s) []))
    end.
Proof.
  intros Hg.
  assert (Hhere : forall t,
    match_here (literal_then l r) t
    = if startswith t l
      then Some (snd (greedy_run r (skipn (List.length l) t) []))
      else None).
  { intros t. unfold match_here. rewrite exec_literal_then.
    destruct (startswith t l); [|reflexivity].
    now rewrite (exec_all_greedy r Hg) by discriminate. }
  induction s as [|c s IH]; cbn [search_from find]; rewrite Hhere.
  - destruct (startswith [] l); reflexivity.
  - destruct (startswith (c :: s) l); [reflexivity|].
    cbn [orelse]. rewrite IH. destruct (find s l); reflexivity.
Qed.

End GreedyLemmas.

(** ** The identifier fields and the issuance date in closed form *)

Lemma compile_cedula :
  re_compile "CÉDULA DE IDENTIFICACIÓN FISCAL \n([\w]*)?"
  = Some {| p_tree := literal_then (py "CÉDULA DE IDENTIFICACIÓN FISCAL \n")
                        word_group;
            p_ngroups := 1 |}.
Proof. vm_compute. reflexivity. Qed.

Lemma compile_curp_label :
  re_compile "CURP:\n([\w]*)?"
  = Some {| p_tree := literal_then (py "CURP:\n") word_group; p_ngroups := 1 |}.
Proof. vm_compute. reflexivity. Qed.

Lemma compile_rfc :
  re_compile "RFC:\n([\w]*)?"
  = Some {| p_tree := literal_then (py "RFC:\n") word_group; p_ngroups := 1 |}.
Proof. vm_compute. reflexivity. Qed.

Lemma compile_fecha :
  re_compile "Lugar y Fecha de Emisión\n*([^\n]*)\n*([^\n]*)?"
  = Some {| p_tree := literal_then (py "Lugar y Fecha de Emisión") two_lines;
            p_ngroups := 2 |}.
Proof. vm_compute. reflexivity. Qed.

Lemma patrones_cedula :
  In (py "Cédula de Identificación fiscal",
      "CÉDULA DE IDENTIFICACIÓN FISCAL \n([\w]*)?"%string) patrones.
Proof. apply (nth_In patrones ([], EmptyString) (n := 0)). cbn. lia. Qed.

Lemma patrones_curp : In (py "CURP", "CURP:\n([\w]*)?"%string) patrones.
Proof. apply (nth_In patrones ([], EmptyString) (n := 1)). cbn. lia. Qed.

Section ClosedForms.
Context {U : unicode_db}.

Lemma greedy_run_word_group (t : str) :
  greedy_run word_group t []
  = (drop_while is_word t, [(1%nat, take_while is_word t)]).
Proof.
  unfold word_group. cbn [greedy_run]. rewrite span_drop_while.
  assert (Hw : forall c,
    charset_matches (IN false [CATEGORY CATEGORY_WORD]) c = is_word c).
  { intros c. cbn [charset_matches existsb item_matches xorb].
    unfold is_word. now rewrite orb_false_r. }
  now rewrite (take_while_ext _ _ t Hw), (drop_while_ext _ _ t Hw).
Qed.

Lemma greedy_run_two_lines (t : str) :
  let t1 := drop_while is_newline t in
  let t2 := drop_while is_newline (drop_while not_newline t1) in
  snd (greedy_run two_lines t [])
  = [(2%nat, take_while not_newline t2); (1%nat, take_while not_newline t1)].
Proof.
  assert (Hl : forall c, charset_matches (IN true [LITERAL 10]) c = not_newline c).
  { intros c. cbn [charset_matches existsb item_matches]. unfold not_newline.
    rewrite orb_false_r. now destruct (c =? 10). }
  unfold two_lines. cbn [greedy_run snd]. rewrite !span_drop_while.
  change (charset_matches (ITEM (LITERAL 10))) with is_newline.
  rewrite !(drop_while_ext _ _ _ Hl), !(take_while_ext _ _ _ Hl).
  reflexivity.
Qed.

Lemma word_rule_value (d : dict) (campo : str) (patron : string)
  (label texto v : str) :
  re_compile patron
  = Some {| p_tree := literal_then label word_group; p_ngroups := 1 |} ->
  campo <> py "Fecha y lugar de emisión" ->
  stored_value d campo patron texto = Ok v ->
  v = word_after label texto.
Proof.
  intros Hc Hcampo. unfold stored_value, re_search, word_after.
  rewrite Hc. cbn [p_tree p_ngroups].
  rewrite search_literal_then by reflexivity.
  destruct (find texto label) as [i|]; cbn [bind].
  - rewrite greedy_run_word_group. cbn [snd].
    unfold field_text, group. cbn [m_ngroups m_marks lookup_mark Nat.ltb Nat.leb
                                     Nat.eqb bind strip_method].
    rewrite (str_eqb_neq _ _ Hcampo). now intros [= <-].
  - now intros [= <-].
Qed.

(** X1. For every text, the fields 'Cédula de Identificación fiscal', 'CURP'
    and 'RFC' are "N/A" when their label does not occur in the cleaned
    text; otherwise each is the longest run of word characters that follows
    the first occurrence of its label, stripped (the empty string when no
    word character follows). *)
Theorem identifier_fields_closed_form (texto : str) :
  exists d,
    extract_fields texto = Ok d
    /\ get d (py "Cédula de Identificación fiscal")
       = Some (word_after (py "CÉDULA DE IDENTIFICACIÓN FISCAL \n")
                 (normalize texto))
    /\ get d (py "CURP") = Some (word_after (py "CURP:\n") (normalize texto))
    /\ get d (py "RFC") = Some (word_after (py "RFC:\n") (normalize texto)).
Proof.
  destruct (extract_fields_spec texto) as (d & Hd & _ & Hall).
  rewrite Forall_forall in Hall.
  destruct (Hall _ patrones_cedula) as (v1 & Hv1 & Hg1).
  destruct (Hall _ patrones_curp) as (v2 & Hv2 & Hg2).
  destruct (Hall _ patrones_rfc) as (v3 & Hv3 & Hg3).
  cbn beta iota in Hv1, Hg1, Hv2, Hg2, Hv3, Hg3.
  exists d. split; [exact Hd|].
  split; [|split].
  - rewrite Hg1. f_equal. refine (word_rule_value d _ _ _ _ _ compile_cedula _ Hv1).
    intros E. vm_compute in E. discriminate.
  - rewrite Hg2. f_equal. refine (word_rule_value d _ _ _ _ _ compile_curp_label _ Hv2).
    intros E. vm_compute in E. discriminate.
  - rewrite Hg3. f_equal. refine (word_rule_value d _ _ _ _ _ compile_rfc _ Hv3).
    intros E. vm_compute in E. discriminate.
Qed.

Lemma fecha_stored (d : dict) (rfc texto v : str) :
  get d (py "RFC") = Some rfc ->
  stored_value d (py "Fecha y lugar de emisión")
    "Lugar y Fecha de Emisión\n*([^\n]*)\n*([^\n]*)?" texto = Ok v ->
  v = match two_lines_after (py "Lugar y Fecha de Emisión") texto with
      | None => py "N/A"
      | Some raw => replace raw rfc []
      end.
Proof.
  intros Hrfc. unfold stored_value, re_search, two_lines_after.
  rewrite compile_fecha. cbn [p_tree p_ngroups].
  rewrite search_literal_then by reflexivity.
  destruct (find texto (py "Lugar y Fecha de Emisión")) as [i|];
    cbn [bind]; [|now intros [= <-]].
  rewrite greedy_run_two_lines.
  unfold field_text, group. cbn [m_ngroups m_marks lookup_mark Nat.ltb Nat.leb
                                   Nat.eqb bind strip_method].
  rewrite str_eqb_refl. unfold getitem. rewrite Hrfc. cbn [bind].
  now intros [= <-].
Qed.

(** X2. For every text, 'Fecha y lugar de emisión' is "N/A" when
    'Lugar y Fecha de Emisión' does not occur in the cleaned text.
    Otherwise, after the first occurrence: newlines are skipped, the rest of
    the line is read, newlines are skipped, the rest of that line is read;
    the field is the two lines, stripped and joined by one space, without
    the occurrences of the value stored under 'RFC'. *)
Theorem fecha_closed_form (texto : str) :
  exists d rfc,
    extract_fields texto = Ok d
    /\ get d (py "RFC") = Some rfc
    /\ get d (py "Fecha y lugar de emisión")
       = Some (match two_lines_after (py "Lugar y Fecha de Emisión")
                       (normalize texto) with
               | None => py "N/A"
               | Some raw => replace raw rfc []
               end).
Proof.
  destruct (extract_fields_spec texto) as (d & Hd & _ & Hall).
  rewrite Forall_forall in Hall.
  destruct (Hall _ patrones_rfc) as (rfc & _ & Hrfc).
  destruct (Hall _ patrones_fecha) as (v & Hv & Hg).
  cbn beta iota in Hrfc, Hv, Hg.
  exists d, rfc. split; [exact Hd|]. split; [exact Hrfc|].
  rewrite Hg. f_equal. exact (fecha_stored d rfc _ v Hrfc Hv).
Qed.

(** X13. For every text in which the RFC field is the empty string (the
    label 'RFC:' and its newline are followed by no word character), the
    issuance date is stored as it was extracted: taking the empty string
    out changes nothing and raises nothing. *)
Theorem fecha_with_empty_rfc (texto : str) :
  exists d,
    extract_fields texto = Ok d
    /\ (get d (py "RFC") = Some [] ->
        get d (py "Fecha y lugar de emisión")
        = Some (match two_lines_after (py "Lugar y Fecha de Emisión")
                        (normalize texto) with
                | None => py "N/A"
                | Some raw => raw
                end)).
Proof.
  destruct (extract_fields_spec texto) as (d & Hd & _ & Hall).
  rewrite Forall_forall in Hall.
  destruct (Hall _ patrones_fecha) as (v & Hv & Hg).
  cbn beta iota in Hv, Hg.
  exists d. split; [exact Hd|]. intros Hrfc.
  rewrite Hg. f_equal. rewrite (fecha_stored d [] _ v Hrfc Hv).
  destruct (two_lines_after _ _); [apply replace_nothing | reflexivity].
Qed.

(** X12. For every rule of the catalog and every text, a match of the
    pattern has set each of its groups, the one or two the rule reads:
    [group] never gives None, so that [strip] is never called on None. *)
Theorem groups_always_set (texto : str) :
  Forall (fun '(_, patron) =>
            match re_search patron texto with
            | Ok (Some m) =>
                (1 <= m_ngroups m <= 2)%nat
                /\ forall g, (1 <= g <= m_ngroups m)%nat ->
                             exists t, group m g = Ok (Some t)
            | Ok None => True
            | Raise _ => False
            end) patrones.
Proof.
  apply Forall_forall. intros [campo patron] Hrule.
  pose proof (proj1 (Forall_forall _ _) patrones_well_formed _ Hrule) as Hw.
  cbn beta iota in Hw.
  destruct (well_formed_inv _ Hw) as (p & Hp & Hn & Hg).
  unfold re_search. rewrite Hp.
  destruct (search_from (p_tree p) texto) as [m|] eqn:E; [|exact I].
  cbn [m_ngroups]. split; [lia|]. intros g Hrange.
  unfold group. cbn [m_ngroups m_marks].
  destruct (Nat.leb_spec g (p_ngroups p)) as [_|Hlt]; [|lia].
  pose proof (search_sure_groups _ _ _ E g (Hg g Hrange)) as Hhas.
  unfold has in Hhas. destruct (lookup_mark m g) as [t|]; [|contradiction].
  now exists t.
Qed.

End ClosedForms.

(** ** A field whose label is absent *)

Lemma contains_nil (s : str) : contains s [] = true.
Proof. destruct s; reflexivity. Qed.

Lemma startswith_contains (s l : str) :
  startswith s l = true -> contains s l = true.
Proof. destruct s; cbn [contains]; intros ->; reflexivity. Qed.

Lemma contains_suffix (pre s l : str) :
  contains s l = true -> contains (pre ++ s) l = true.
Proof.
  intros Hs. destruct (contains_inv s l Hs) as (a & b & ->).
  rewrite app_assoc. apply contains_intro.
Qed.

Section RequiredLiteral.
Context {U : unicode_db}.

Lemma repeat_max_suffix {A} (p : char -> bool) (k : str -> option A) (s : str) x :
  repeat_max p s k = Some x -> exists pre s', s = pre ++ s' /\ k s' = Some x.
Proof.
  induction s as [|c s IH]; cbn [repeat_max].
  - intros Hk. now exists [], [].
  - destruct (p c); [|intros Hk; now exists [], (c :: s)].
    destruct (repeat_max p s k) eqn:E; cbn [orelse].
    + intros [= <-]. destruct (IH eq_refl) as (pre & s' & -> & Hk).
      now exists (c :: pre), s'.
    + intros Hk. now exists [], (c :: s).
Qed.

Lemma repeat_min_suffix {A} (p : char -> bool) (k : str -> option A) (s : str) x :
  repeat_min p s k = Some x -> exists pre s', s = pre ++ s' /\ k s' = Some x.
Proof.
  induction s as [|c s IH]; cbn [repeat_min].
  - destruct (k []) eqn:E; cbn [orelse]; [|discriminate].
    intros [= <-]. now exists [], [].
  - destruct (k (c :: s)) eqn:E; cbn [orelse].
    + intros [= <-]. now exists [], (c :: s).
    + destruct (p c); [|discriminate]. intros Hr.
      destruct (IH Hr) as (pre & s' & -> & Hk). now exists (c :: pre), s'.
Qed.

Lemma exec_leading (r : regex) :
  forall s m k x,
    exec r s m k = Some x -> startswith s (leading_literal r) = true.
Proof.
  induction r as [|cs|a IHa b IHb|greedy cs|g body IH|body IH];
    intros s m k x; try reflexivity.
  destruct a as [|[|[c|cat]|negate items]| | | |]; try reflexivity.
  cbn [exec leading_literal charset_matches item_matches].
  destruct s as [|c' s]; [discriminate|].
  cbn [startswith]. destruct (c' =? c); [apply IHb | discriminate].
Qed.

Lemma exec_required (r : regex) :
  forall s m k x,
    exec r s m k = Some x -> contains s (required_literal r) = true.
Proof.
  induction r as [|cs|a IHa b IHb|greedy cs|g body IH|body IH];
    intros s m k x He; try apply contains_nil.
  destruct a as [|cs| |greedy cs| |];
    try (apply startswith_contains; eapply exec_leading; exact He).
  cbn [required_literal]. cbn [exec] in He.
  destruct greedy;
    [apply repeat_max_suffix in He | apply repeat_min_suffix in He];
    destruct He as (pre & s' & -> & He);
    apply contains_suffix; eapply IHb; exact He.
Qed.

Lemma search_required (r : regex) (s : str) (m : marks) :
  search_from r s = Some m -> contains s (required_literal r) = true.
Proof.
  induction s as [|c s IH]; cbn [search_from]; unfold match_here;
    destruct (exec r _ [] (fun _ m0 => Some m0)) eqn:E; cbn [orelse];
    try discriminate; intros Hs.
  - eapply exec_required; exact E.
  - eapply exec_required; exact E.
  - apply (contains_suffix [c]). now apply IH.
Qed.

Lemma absent_label_value (d : dict) (campo : str) (patron : string)
  (texto v : str) :
  well_formed patron = true ->
  contains texto (label_of patron) = false ->
  stored_value d campo patron texto = Ok v ->
  v = py "N/A".
Proof.
  intros Hw Habs. destruct (well_formed_inv _ Hw) as (p & Hp & _).
  unfold label_of in Habs. unfold stored_value, re_search.
  rewrite Hp in *. destruct (search_from (p_tree p) texto) as [m|] eqn:E.
  - apply search_required in E. congruence.
  - cbn [bind]. now intros [= <-].
Qed.

(** X3. Every pattern of the catalog holds a label, the literal text it
    requires: the sixteen labels are listed. For every text and every rule,
    when the label does not occur in the cleaned text the field is "N/A". *)
Theorem absent_label_gives_sentinel (texto : str) :
  map (fun rule => label_of (snd rule)) patrones
  = [py "CÉDULA DE IDENTIFICACIÓN FISCAL \n"; py "CURP:\n"; py "RFC:\n";
     py "Registro"; py "Código"; py "Tipo"; py "Nombre"; py "Número";
     py "Número"; py "Nombre"; py "Nombre"; py "Territorial:"; py "Nombre";
     py "Entre"; py "Y"; py "Lugar y Fecha de Emisión"]
  /\ exists d,
       extract_fields texto = Ok d
       /\ Forall (fun '(campo, patron) =>
                    contains (normalize texto) (label_of patron) = false ->
                    get d campo = Some (py "N/A"))
            patrones.
Proof.
  split; [vm_compute; reflexivity|].
  destruct (extract_fields_spec texto) as (d & Hd & _ & Hall).
  exists d. split; [exact Hd|].
  rewrite Forall_forall in *. intros [campo patron] Hrule Habs.
  pose proof (proj1 (Forall_forall _ _) patrones_well_formed _ Hrule) as Hw.
  destruct (Hall _ Hrule) as (v & Hv & Hg). cbn beta iota in Hw, Hv, Hg.
  rewrite Hg. f_equal. eapply absent_label_value; eassumption.
Qed.

End RequiredLiteral.

(** ** What the normalizer keeps *)

Lemma startswith_long (x y h : str) :
  (List.length h <= List.length x)%nat ->
  startswith (x ++ y) h = startswith x h.
Proof.
  revert x; induction h as [|p h IH]; intros x Hx; [reflexivity|].
  destruct x as [|c x]; cbn [List.length] in Hx; [lia|].
  cbn [app startswith]. rewrite IH by lia. reflexivity.
Qed.

Lemma truncate_at_cons (c : char) (s h : str) :
  startswith (c :: s) h = false ->
  truncate_at (c :: s) h = c :: truncate_at s h.
Proof.
  intros Hs. unfold truncate_at. cbn [find]. rewrite Hs.
  destruct (find s h); reflexivity.
Qed.

Lemma truncate_at_here (s h : str) :
  startswith s h = true -> truncate_at s h = [].
Proof.
  intros Hs. unfold truncate_at. now rewrite (find_startswith _ _ Hs).
Qed.

Lemma truncate_after_marker (a h b : str) :
  truncate_at (a ++ h ++ b) h = truncate_at (a ++ h) h.
Proof.
  induction a as [|c a IH]; cbn [app].
  - rewrite (truncate_at_here (h ++ b)) by apply startswith_app.
    rewrite truncate_at_here; [reflexivity|].
    rewrite <- (app_nil_r h) at 1. apply startswith_app.
  - assert (E : startswith (c :: a ++ h ++ b) h = startswith (c :: a ++ h) h).
    { change (c :: a ++ h ++ b) with ((c :: a) ++ h ++ b).
      rewrite app_assoc. apply startswith_long.
      cbn [app List.length]. rewrite length_app. lia. }
    destruct (startswith (c :: a ++ h) h) eqn:E'.
    + now rewrite !truncate_at_here.
    + rewrite !truncate_at_cons by assumption. now rewrite IH.
Qed.

Lemma truncate_at_length (s h : str) :
  (List.length (truncate_at s h) <= List.length s)%nat.
Proof.
  unfold truncate_at. destruct (find s h); [rewrite length_firstn|]; lia.
Qed.

Lemma replace_length (s old : str) :
  (List.length (replace s old []) <= List.length s)%nat.
Proof.
  destruct old as [|o old]; [|apply replace_from_length].
  cbn [replace app]. induction s as [|c s IH]; cbn [flat_map app List.length]; lia.
Qed.

(** X4. Whatever follows the first 'Actividades Económicas:' has no part in
    the result: two texts that agree up to and including that marker are
    normalized to the same text and give the same fields, under any
    tables. *)
Theorem text_after_section_header_ignored (a b : str) :
  normalize (a ++ py "Actividades Económicas:" ++ b)
  = normalize (a ++ py "Actividades Económicas:")
  /\ forall U : unicode_db,
       @extract_fields U (a ++ py "Actividades Económicas:" ++ b)
       = @extract_fields U (a ++ py "Actividades Económicas:").
Proof.
  assert (Hn : normalize (a ++ py "Actividades Económicas:" ++ b)
               = normalize (a ++ py "Actividades Económicas:")).
  { unfold normalize. fold_literals.
    rewrite (split_truncate (a ++ lit ++ b) lit), truncate_after_marker,
      <- split_truncate. reflexivity. }
  split; [exact Hn|]. intros U. unfold extract_fields. now rewrite Hn.
Qed.

(** X5. Normalization only takes text away: its result is never longer than
    the text it is given. *)
Theorem normalize_never_longer (texto : str) :
  (List.length (normalize texto) <= List.length texto)%nat.
Proof.
  unfold normalize. fold_literals.
  repeat match goal with
         | |- (List.length (replace ?s ?l []) <= _)%nat =>
             apply (Nat.le_trans _ _ _ (replace_length s l))
         | |- (List.length (item0 (split ?s ?l)) <= _)%nat =>
             rewrite (split_truncate s l);
             apply (Nat.le_trans _ _ _ (truncate_at_length s l))
         end.
  lia.
Qed.

(** ** The path of the export *)

Lemma endswith_app (p s : str) : endswith (p ++ s) s = true.
Proof. unfold endswith. rewrite rev_app_distr. apply startswith_app. Qed.

(** X6. For every non-empty path given by the save dialog, the file is
    written under a path that ends with ".xlsx": the path itself when it
    ends so, otherwise the path followed by ".xlsx"; giving the result back
    changes nothing. The test is case-sensitive: a path that ends with
    ".XLSX" gets ".xlsx" added. An empty path saves nothing. *)
Theorem excel_path_ends_with_xlsx (c : char) (p : str) :
  excel_path [] = None
  /\ (exists q,
        excel_path (c :: p) = Some q
        /\ endswith q (py ".xlsx") = true
        /\ q = (if endswith (c :: p) (py ".xlsx")
                then c :: p else (c :: p) ++ py ".xlsx")
        /\ excel_path q = Some q)
  /\ excel_path (p ++ py ".XLSX") = Some (p ++ py ".XLSX" ++ py ".xlsx").
Proof.
  split; [reflexivity|]. split.
  - unfold excel_path. fold_literals.
    destruct (endswith (c :: p) lit) eqn:E; cbn [negb].
    + exists (c :: p). rewrite E. cbn [negb]. auto.
    + exists ((c :: p) ++ lit). split; [reflexivity|].
      split; [apply endswith_app|]. split; [reflexivity|].
      cbn [app]. change (c :: p ++ lit) with ((c :: p) ++ lit).
      now rewrite endswith_app.
  - assert (E : endswith (p ++ py ".XLSX") (py ".xlsx") = false).
    { unfold endswith. rewrite rev_app_distr. reflexivity. }
    unfold excel_path. rewrite E. cbn [negb].
    destruct (p ++ py ".XLSX") eqn:Ep.
    + apply (f_equal (@List.length _)) in Ep. rewrite length_app in Ep.
      cbn in Ep. lia.
    + rewrite <- Ep, <- app_assoc. reflexivity.
Qed.

(** ** Reading, reporting and reordering *)

Lemma fold_left_app_concat (pages : list str) :
  forall acc : str,
    fold_left (fun text page => text ++ page) pages acc = acc ++ List.concat pages.
Proof.
  induction pages as [|p pages IH]; intros acc; cbn [fold_left List.concat].
  - now rewrite app_nil_r.
  - now rewrite IH, app_assoc.
Qed.

Lemma keys_filter (g : str -> bool) (d : dict) :
  keys (filter (fun kv => g (fst kv)) d) = filter g (keys d).
Proof.
  induction d as [|[k v] d IH]; cbn [filter keys map fst]; [reflexivity|].
  destruct (g k); cbn [keys map fst]; now f_equal.
Qed.

Lemma get_filter (g : str -> bool) (d : dict) (k : str) :
  g k = true -> get (filter (fun kv => g (fst kv)) d) k = get d k.
Proof.
  intros Hk. induction d as [|[k' v'] d IH]; cbn [filter get fst]; [reflexivity|].
  destruct (g k') eqn:E; cbn [get].
  - now rewrite IH.
  - rewrite IH. rewrite str_eqb_neq; [reflexivity|]. congruence.
Qed.

Lemma rebuild_raise (source : dict) (ks : list str) (e : exn) :
  fold_left
    (fun acc k => d <- acc ;; v <- getitem source k ;; Ok (setitem d k v))
    ks (Raise e) = Raise e.
Proof. induction ks as [|k ks IH]; [reflexivity | exact IH]. Qed.

(** X9. Line 182 on a dict of distinct keys: when 'Archivo' is a key, the
    new dict has 'Archivo' first with its value, then every other entry with
    its value, in the order they had; when it is not, the lookup raises
    KeyError. *)
Theorem archivo_first_reorders (resultado : dict) :
  NoDup (keys resultado) ->
  archivo_first resultado
  = match get resultado (py "Archivo") with
    | Some archivo =>
        Ok ((py "Archivo", archivo)
            :: filter (fun kv => negb (str_eqb (fst kv) (py "Archivo")))
                 resultado)
    | None => Raise (KeyError (py "Archivo"))
    end.
Proof.
  unfold archivo_first. fold_literals. intros Hnd.
  cbn [fold_left bind]. unfold getitem at 2.
  destruct (get resultado lit) as [archivo|] eqn:E; cbn [bind setitem];
    [|apply rebuild_raise].
  set (g := fun key => negb (str_eqb key lit)).
  destruct (rebuild_spec resultado (filter g (keys resultado)) [(lit, archivo)])
    as (vs & Hvs & Hkeys & Hall).
  - cbn [keys map fst app]. constructor; [|now apply NoDup_filter].
    intros Hin. apply filter_In in Hin as [_ Hin]. unfold g in Hin.
    now rewrite str_eqb_refl in Hin.
  - intros k Hk. now apply filter_In in Hk.
  - rewrite Hvs. cbn [app]. do 2 f_equal.
    change (fun kv : str * str => negb (str_eqb (fst kv) lit))
      with (fun kv : str * str => g (fst kv)).
    apply same_keys_same_values.
    + rewrite keys_filter. now apply NoDup_filter.
    + now rewrite keys_filter.
    + rewrite Forall_forall in *. intros kv Hin. rewrite <- (Hall _ Hin).
      apply get_filter. apply (in_map fst) in Hin. fold (keys vs) in Hin.
      rewrite Hkeys in Hin. now apply filter_In in Hin.
Qed.

Lemma archivo_first_witness :
  NoDup (keys [(py "RFC", py "AB"); (py "Archivo", py "a.pdf"); (py "CURP", [])])
  /\ archivo_first [(py "RFC", py "AB"); (py "Archivo", py "a.pdf"); (py "CURP", [])]
     = match get [(py "RFC", py "AB"); (py "Archivo", py "a.pdf"); (py "CURP", [])]
               (py "Archivo") with
       | Some archivo =>
           Ok ((py "Archivo", archivo)
               :: filter (fun kv => negb (str_eqb (fst kv) (py "Archivo")))
                    [(py "RFC", py "AB"); (py "Archivo", py "a.pdf");
                     (py "CURP", [])])
       | None => Raise (KeyError (py "Archivo"))
       end.
Proof.
  assert (Hnd : NoDup (keys [(py "RFC", py "AB"); (py "Archivo", py "a.pdf");
                             (py "CURP", [])])).
  { apply distinct_NoDup. vm_compute. reflexivity. }
  split; [exact Hnd|].
  exact (archivo_first_reorders _ Hnd).
Defined.

Section Reading.
Context {U : unicode_db} {H : host}.

(** X7. [get_text] gives the texts of the pages joined in page order, the
    empty text for a document without pages, and raises what the opening of
    the file raises. A document one page of which holds the marker is
    classified as fiscal. *)
Theorem get_text_joins_pages (pdf_path : str) :
  match fitz_open pdf_path with
  | Ok pages =>
      get_text pdf_path = Ok (List.concat pages)
      /\ (existsb is_fiscal pages = true -> is_fiscal (List.concat pages) = true)
  | Raise e => get_text pdf_path = Raise e
  end.
Proof.
  unfold get_text. destruct (fitz_open pdf_path) as [pages|e]; cbn [bind];
    [|reflexivity].
  split; [now rewrite fold_left_app_concat|].
  intros Hp. apply existsb_exists in Hp as (page & Hin & Hf).
  apply in_split in Hin as (l1 & l2 & ->).
  rewrite concat_app. cbn [List.concat].
  unfold is_fiscal in *. apply contains_suffix.
  destruct (contains_inv _ _ Hf) as (a & b & ->).
  rewrite <- !app_assoc. apply contains_intro.
Qed.




Lemma process_loop_opened (folder_path : str) (total : nat) (archivos : list str) :
  forall (i : nat) (resultados : list dict) (log : list event),
  exists k,
    (k <= List.length archivos)%nat
    /\ filter is_opened
         (snd (process_loop folder_path total i archivos resultados log))
       = filter is_opened log
         ++ map (fun a => Opened (os_path_join folder_path a)) (firstn k archivos)
    /\ (Forall (readable folder_path) archivos -> k = List.length archivos).
Proof.
  induction archivos as [|a l IH]; intros i resultados log.
  - exists 0%nat. cbn. rewrite app_nil_r. auto.
  - cbn [process_loop]. unfold io_bind, emit, lift.
    destruct (get_text (os_path_join folder_path a)) as [texto|e] eqn:E.
    + destruct (process_text_spec a texto resultados) as (d & _ & _ & Hp).
      rewrite Hp.
      destruct (IH (S i)
                  (if is_fiscal texto
                   then resultados ++ [(py "Archivo", a) :: d] else resultados)
                  ((log ++ [Opened (os_path_join folder_path a)])
                     ++ [SetValue i total]))
        as (k & Hk & Hop & Hall).
      exists (S k). split; [cbn [List.length]; lia|]. split.
      * rewrite Hop, !filter_app. cbn [filter is_opened firstn map].
        rewrite app_nil_r, <- app_assoc. reflexivity.
      * intros Hr. inversion Hr; subst. now rewrite Hall.
    + exists 1%nat. split; [cbn [List.length]; lia|]. split.
      * cbn [snd firstn map]. rewrite filter_app. cbn [filter is_opened].
        reflexivity.
      * intros Hr. inversion Hr as [|? ? [texto Ht] ?]; subst. congruence.
Qed.

(** X11. The files [process_pdfs] opens are the first [k] PDFs of the
    folder, in the order of the listing and each once, for some [k]; when
    every PDF can be read they are all of them. *)
Theorem files_opened_in_order (folder_path : str) :
  exists k,
    (k <= List.length (archivos_pdf folder_path))%nat
    /\ filter is_opened (snd (process_pdfs folder_path []))
       = map (fun a => Opened (os_path_join folder_path a))
           (firstn k (archivos_pdf folder_path))
    /\ (Forall (readable folder_path) (archivos_pdf folder_path) ->
        k = List.length (archivos_pdf folder_path)).
Proof.
  unfold process_pdfs.
  destruct (Nat.eqb (List.length (archivos_pdf folder_path)) 0) eqn:E.
  - apply Nat.eqb_eq in E. exists 0%nat. rewrite E. cbn. auto with arith.
  - destruct (process_loop_opened folder_path
                (List.length (archivos_pdf folder_path))
                (archivos_pdf folder_path) 1 [] []) as (k & Hk & Hop & Hall).
    exists k. split; [exact Hk|]. split; [|exact Hall].
    unfold io_bind, ret.
    destruct (process_loop folder_path _ 1 (archivos_pdf folder_path) [] [])
      as [[rs|e] trace]; exact Hop.
Qed.

(** X10. An entry of the folder whose name is made of ASCII characters and
    ends with ".pdf" written in any mix of cases is a file of the batch. *)
Theorem ascii_pdf_name_is_candidate (folder_path stem ext : str) :
  In (stem ++ ext) (os_listdir folder_path) ->
  forallb (fun c => c <? 128) (stem ++ ext) = true ->
  map ascii_lower ext = py ".pdf" ->
  In (stem ++ ext) (archivos_pdf folder_path).
Proof.
  intros Hin Hascii Hext. unfold archivos_pdf. apply filter_In.
  split; [exact Hin|]. unfold lower. rewrite Hascii.
  change (endswith (map ascii_lower (stem ++ ext)) (py ".pdf") = true).
  rewrite map_app, Hext. apply endswith_app.
Qed.

End Reading.

Lemma ascii_pdf_name_witness :
  In (py "a" ++ py ".PDF") (@os_listdir folder_with_corrupt_file (py "d"))
  /\ forallb (fun c => c <? 128) (py "a" ++ py ".PDF") = true
  /\ map ascii_lower (py ".PDF") = py ".pdf"
  /\ In (py "a" ++ py ".PDF")
       (@archivos_pdf latin1 folder_with_corrupt_file (py "d")).
Proof.
  assert (H1 : In (py "a" ++ py ".PDF")
                 (@os_listdir folder_with_corrupt_file (py "d")))
    by (left; vm_compute; reflexivity).
  assert (H2 : forallb (fun c => c <? 128) (py "a" ++ py ".PDF") = true)
    by (vm_compute; reflexivity).
  assert (H3 : map ascii_lower (py ".PDF") = py ".pdf")
    by (vm_compute; reflexivity).
  split; [exact H1|]. split; [exact H2|]. split; [exact H3|].
  exact (@ascii_pdf_name_is_candidate latin1 folder_with_corrupt_file
           (py "d") (py "a") (py ".PDF") H1 H2 H3).
Defined.

(** A whole run over the folder with two fiscal files, saved as [out]: three
    updates, then the reset. *)
Example whole_run_progress :
  filter is_progress
    (snd (@process_pdfs_whole latin1 folder_with_two_fiscal
            (fun _ _ => Ok tt) (py "d") (py "out")))
  = [During (SetValue 1 3); During (SetValue 2 3); During (SetValue 3 3);
     SetValueZero].
Proof. vm_compute. reflexivity. Qed.
